(** * Risk quantification core of [main.py]

    A shallow embedding of the numeric core of the ATR based risk tool:
    [compute_true_range], [compute_atr], [median_hitting_time_bm],
    [App.bar_to_seconds], [App.compute_stop_distance] and the request
    handler [App.on_calculate].

    Number model.  The program computes on Python [float] and [int].
    Here an [int] is a [Z] and a finite [float] is an exact rational [Q]:
    rounding, overflow, signed zeros and NaN are outside the model.  The
    one non finite value the program itself manufactures,
    [float("inf")], is the constructor [PosInf] of [pyfloat].  Where the
    program and a statement build the very same expression the results
    are compared with [=]; otherwise with the rational equality [==].

    Exceptions are explicit: every function that can raise returns
    [result A = exn + A], and the statements run in Python's order.

    Doubles.  Statements that turn on overflow, underflow or NaN are
    made in the module [IEEE], which embeds [median_hitting_time_bm],
    [App.compute_stop_distance], [compute_atr] and [App.on_calculate] a
    second time on primitive binary64 floats, with the [OverflowError]
    of [x ** 2].

    Beyond the numeric core the file embeds [App.parse_inst_symbols],
    [App.on_mode_change], and the parts of [fetch_okx_candles] and
    [fetch_dex_price_by_token] that follow [resp.json()]: the reply is
    an argument, typed by the keys the code reads.  [str.upper] and
    [str.lower] are parameters of the functions that call them. *)

From Stdlib Require Import String ZArith QArith Qabs Qminmax List Bool Lia Lra.
From Stdlib Require Import Ascii Sorted.
From Stdlib Require Import Floats.
Import ListNotations.

Local Open Scope Z_scope.
Local Open Scope Q_scope.

(** ** Exceptions *)

(** The messages of the [ValueError]s of [main.py], one constructor per
    [raise] site (the line is the one in [main.py]). *)
Inductive message : Set :=
  | TooFewCandlesForATR      (* l.101 compute_atr: len(candles) < period + 1 *)
  | StopPctNotPositive       (* l.261 compute_stop_distance: pct <= 0 *)
  | StopInputMissing         (* l.266 compute_stop_distance: no pct, no level *)
  | StopDistanceInvalid      (* l.274 compute_stop_distance: dist <= 0 *)
  | NotionalNotPositive      (* l.336 on_calculate: open_notional <= 0 *)
  | NoCandles                (* l.348 on_calculate: empty series *)
  | TooFewCandles            (* l.353 on_calculate: len(candles) < atr_n + 1 *)
  | DexNeedsCustomATR        (* l.367 on_calculate: DEX mode, no custom ATR *)
  | NotANumber.              (* float(s) or int(s) on text that does not parse *)

Inductive exn : Set :=
  | ValueError (m : message)
  | ZeroDivisionError
  | IndexError
  | FeedError.               (* anything raised by the price feed calls *)

Definition result (A : Type) : Type := (exn + A)%type.

Definition Ok {A} (a : A) : result A := inr a.
Definition raise {A} (e : exn) : result A := inl e.

Definition bind {A B} (c : result A) (k : A -> result B) : result B :=
  match c with
  | inl e => inl e
  | inr a => k a
  end.

Declare Scope py_scope.
Delimit Scope py_scope with py.
Notation "x <- c ;; k" := (bind c (fun x => k))
  (at level 61, c at next level, right associativity) : py_scope.
Notation "' pat <- c ;; k" := (bind c (fun x => match x with pat => k end))
  (at level 61, pat pattern, c at next level, right associativity) : py_scope.
Notation "'check' b 'else_raise' e ;; k" := (if b then k else raise e)
  (at level 61, b at next level, e at next level, right associativity) : py_scope.
Local Open Scope py_scope.

(** ** Python primitives *)

(** [a < b] and [a <= b] on floats. *)
Definition Qltb (a b : Q) : bool := negb (Qle_bool b a).
Definition Qleb (a b : Q) : bool := Qle_bool a b.

(** [a / b] on floats: raises on a zero divisor. *)
Definition py_div (a b : Q) : result Q :=
  if Qeq_bool b 0 then raise ZeroDivisionError else Ok (a / b).

(** [max(a, b)]: the first argument unless the second is strictly
    greater, which is what [Qmax] computes. *)
Definition py_max (a b : Q) : Q := Qmax a b.

(** [max(a, b, c)] scans left to right. *)
Definition py_max3 (a b c : Q) : Q := py_max (py_max a b) c.

(** [sum(xs)]: left to right from the integer 0. *)
Definition py_sum (xs : list Q) : Q := fold_left Qplus xs 0.

(** [range(a, b)]. *)
Definition py_range (a b : Z) : list Z :=
  map (fun k => (a + Z.of_nat k)%Z) (seq 0 (Z.to_nat (b - a))).

(** Clamping of one slice bound to [0 .. len], a negative bound counting
    from the end. *)
Definition slice_bound (len i : Z) : Z :=
  if (i <? 0)%Z then Z.max 0 (i + len) else Z.min i len.

(** [l[start:stop]]. *)
Definition py_slice {A} (l : list A) (start stop : Z) : list A :=
  let len := Z.of_nat (length l) in
  let a := slice_bound len start in
  let b := slice_bound len stop in
  firstn (Z.to_nat (b - a)) (skipn (Z.to_nat a) l).

(** [l[i]], a negative index counting from the end. *)
Definition py_index {A} (l : list A) (i : Z) : result A :=
  let len := Z.of_nat (length l) in
  let j := if (i <? 0)%Z then (i + len)%Z else i in
  if (j <? 0)%Z then raise IndexError
  else match nth_error l (Z.to_nat j) with
       | Some a => Ok a
       | None => raise IndexError
       end.

(** [for x in xs: acc.append(f(x))], stopping at the first exception. *)
Fixpoint py_collect {A B} (f : A -> result B) (xs : list A) : result (list B) :=
  match xs with
  | [] => Ok []
  | x :: xs' =>
      y <- f x ;;
      ys <- py_collect f xs' ;;
      Ok (y :: ys)
  end.

(** ** Candles *)

(** One element of the list built by [fetch_okx_candles]. *)
Record Candle : Set := mkCandle {
  ts : Z;
  open : Q;
  high : Q;
  low : Q;
  close : Q
}.

(** ** Volatility: [compute_true_range], [compute_atr] *)

Definition compute_true_range (prev_close high low : Q) : Q :=
  py_max3 (high - low) (Qabs (high - prev_close)) (Qabs (low - prev_close)).

Definition compute_atr (candles : list Candle) (period : Z) : result Q :=
  let len := Z.of_nat (length candles) in
  check negb (len <? period + 1)%Z else_raise ValueError TooFewCandlesForATR ;;
  trs <- py_collect (fun i =>
           prev <- py_index candles (i - 1) ;;
           cur <- py_index candles i ;;
           Ok (compute_true_range (close prev) (high cur) (low cur)))
         (py_range 1 len) ;;
  atr_values <- py_collect (fun i =>
           let window := py_slice trs (i - (period - 1)) (i + 1) in
           py_div (py_sum window) (inject_Z period))
         (py_range (period - 1) (Z.of_nat (length trs))) ;;
  py_index atr_values (-1).

(** ** Hitting time: [median_hitting_time_bm] *)

(** A float that may be [float("inf")]. *)
Inductive pyfloat : Set :=
  | Fin (q : Q)
  | PosInf.

Definition median_hitting_time_bm (sigma barrier_abs dt_seconds : Q) : result pyfloat :=
  if Qleb sigma 0 then Ok PosInf
  else
    r <- py_div barrier_abs sigma ;;
    let steps := (1 # 2) * r ^ 2 in
    Ok (Fin (steps * dt_seconds)).

(** [x / 3600.0] on a value that may be [float("inf")]. *)
Definition pyfloat_div (x : pyfloat) (d : Q) : pyfloat :=
  match x with
  | Fin q => Fin (q / d)
  | PosInf => PosInf
  end.

(** ** The form: the [StringVar]s read by the calculation *)

(** The text of an entry box after [.strip()]: empty, text that
    [float()] (or [int()]) reads as the finite number [a], or text it
    rejects. *)
Inductive entry (A : Type) : Type :=
  | Blank
  | Parsed (a : A)
  | Unparsable.
Arguments Blank {A}.
Arguments Parsed {A} a.
Arguments Unparsable {A}.

(** [if s:] on the stripped text. *)
Definition nonblank {A} (e : entry A) : bool :=
  match e with
  | Blank => false
  | _ => true
  end.

(** [float(s)] and [int(s)]: the empty string does not parse either. *)
Definition py_parse {A} (e : entry A) : result A :=
  match e with
  | Parsed a => Ok a
  | _ => raise (ValueError NotANumber)
  end.

(** [mode_var]: the read-only combobox offers "CEX" and "DEX". *)
Inductive mode : Set := CEX | DEX.

(** [side_var]: the read-only combobox offers the long side and the
    short side; the code tests for the long one and takes [else] for
    the other. *)
Inductive side : Set := Long | Short.

Record App : Type := mkApp {
  mode_var : mode;
  bar_var : string;
  atr_n_var : entry Z;
  open_notional_var : entry Q;
  custom_atr_var : entry Q;
  stop_pct_var : entry Q;
  stop_level_var : entry Q;
  side_var : side
}.

(** The two price feeds, as the values their calls return for the
    instrument on the form: [fetch_okx_candles(inst, bar, limit)] by
    [limit], and the price of [fetch_dex_price_by_token].  [None] is a
    call that raises. *)
Record Feed : Type := mkFeed {
  fetch_okx_candles : Z -> option (list Candle);
  fetch_dex_price_by_token : option Q
}.

Definition from_feed {A} (r : option A) : result A :=
  match r with
  | Some a => Ok a
  | None => raise FeedError
  end.

(** ** [App.bar_to_seconds] *)

Definition bar_to_seconds (bar : string) : Z :=
  if String.eqb bar "1m" then 60
  else if String.eqb bar "5m" then 5 * 60
  else if String.eqb bar "15m" then 15 * 60
  else if String.eqb bar "1H" then 60 * 60
  else if String.eqb bar "4H" then 4 * 60 * 60
  else if String.eqb bar "1D" then 24 * 60 * 60
  else 60 * 60.

(** ** [App.compute_stop_distance] *)

Definition compute_stop_distance (self : App) (last_close : Q) : result (Q * Q) :=
  if nonblank (stop_pct_var self) then
    pct <- py_parse (stop_pct_var self) ;;
    check negb (Qleb pct 0) else_raise ValueError StopPctNotPositive ;;
    let dist := last_close * (pct / 100) in
    Ok (dist, pct)
  else
    check nonblank (stop_level_var self) else_raise ValueError StopInputMissing ;;
    stop_level <- py_parse (stop_level_var self) ;;
    let dist :=
      match side_var self with
      | Long => py_max 0 (last_close - stop_level)
      | Short => py_max 0 (stop_level - last_close)
      end in
    check negb (Qleb dist 0) else_raise ValueError StopDistanceInvalid ;;
    r <- py_div dist last_close ;;
    let pct := r * 100 in
    Ok (dist, pct).

(** ** [App.on_calculate] *)

(** The values [on_calculate] computes and then prints. *)
Record Calc : Set := mkCalc {
  last_close : Q;
  atr_value : Q;
  stop_abs : Q;
  stop_pct : Q;
  open_notional : Q;
  position_base : Q;
  loss_quote : Q;
  notional_quote : Q;
  dt_seconds : Z;
  median_seconds : pyfloat;
  median_hours : pyfloat
}.

(** The body of [on_calculate], with the ATR routine it calls as a
    parameter [atr]; the widget updates and the message box of the
    [except] clause are left out, the exception is returned instead. *)
Definition on_calculate_with (atr : list Candle -> Z -> result Q)
    (self : App) (feed : Feed) : result Calc :=
  let mode := mode_var self in
  let bar := bar_var self in
  atr_n <- py_parse (atr_n_var self) ;;
  open_notional <- py_parse (open_notional_var self) ;;
  let custom_atr := custom_atr_var self in
  check negb (Qleb open_notional 0) else_raise ValueError NotionalNotPositive ;;
  '(atr_value, last_close) <-
    match mode with
    | CEX =>
        if nonblank custom_atr then
          atr_value <- py_parse custom_atr ;;
          candles <- from_feed (fetch_okx_candles feed (Z.max (atr_n + 2) 50)) ;;
          check negb (Nat.eqb (length candles) 0) else_raise ValueError NoCandles ;;
          last <- py_index candles (-1) ;;
          Ok (atr_value, close last)
        else
          candles <- from_feed (fetch_okx_candles feed (Z.max (atr_n + 50) 100)) ;;
          check negb (Z.of_nat (length candles) <? atr_n + 1)%Z
            else_raise ValueError TooFewCandles ;;
          atr_value <- atr candles atr_n ;;
          last <- py_index candles (-1) ;;
          Ok (atr_value, close last)
    | DEX =>
        price_usd <- from_feed (fetch_dex_price_by_token feed) ;;
        let last_close := price_usd in
        if nonblank custom_atr then
          atr_value <- py_parse custom_atr ;;
          Ok (atr_value, last_close)
        else raise (ValueError DexNeedsCustomATR)
    end ;;
  '(stop_abs, stop_pct) <- compute_stop_distance self last_close ;;
  position_base <- py_div open_notional last_close ;;
  let loss_quote := position_base * stop_abs in
  let notional_quote := open_notional in
  let dt_seconds := bar_to_seconds bar in
  median_seconds <- median_hitting_time_bm atr_value stop_abs (inject_Z dt_seconds) ;;
  let median_hours := pyfloat_div median_seconds 3600 in
  Ok (mkCalc last_close atr_value stop_abs stop_pct open_notional position_base
        loss_quote notional_quote dt_seconds median_seconds median_hours).

Definition on_calculate : App -> Feed -> result Calc :=
  on_calculate_with compute_atr.

(** ** [on_calculate] in two halves

    The handler first settles on an (ATR, last price) pair, then resolves
    the stop, sizes the loss and estimates the hitting time.  The two
    halves are named here so that lemmas can speak of each;
    [on_calculate_with_unfold] shows that their composition is the
    handler, by computation. *)

(** The [if mode == "CEX": ... else: ...] statement. *)
Definition acquired (atr : list Candle -> Z -> result Q)
    (self : App) (feed : Feed) (atr_n : Z) : result (Q * Q) :=
  match mode_var self with
  | CEX =>
      if nonblank (custom_atr_var self) then
        atr_value <- py_parse (custom_atr_var self) ;;
        candles <- from_feed (fetch_okx_candles feed (Z.max (atr_n + 2) 50)) ;;
        check negb (Nat.eqb (length candles) 0) else_raise ValueError NoCandles ;;
        last <- py_index candles (-1) ;;
        Ok (atr_value, close last)
      else
        candles <- from_feed (fetch_okx_candles feed (Z.max (atr_n + 50) 100)) ;;
        check negb (Z.of_nat (length candles) <? atr_n + 1)%Z
          else_raise ValueError TooFewCandles ;;
        atr_value <- atr candles atr_n ;;
        last <- py_index candles (-1) ;;
        Ok (atr_value, close last)
  | DEX =>
      price_usd <- from_feed (fetch_dex_price_by_token feed) ;;
      if nonblank (custom_atr_var self) then
        atr_value <- py_parse (custom_atr_var self) ;;
        Ok (atr_value, price_usd)
      else raise (ValueError DexNeedsCustomATR)
  end.

(** From [self.compute_stop_distance(last_close)] to the end. *)
Definition finish (self : App) (notional atr_value last_close : Q) : result Calc :=
  '(stop_abs, stop_pct) <- compute_stop_distance self last_close ;;
  position_base <- py_div notional last_close ;;
  median_seconds <- median_hitting_time_bm atr_value stop_abs
                      (inject_Z (bar_to_seconds (bar_var self))) ;;
  Ok (mkCalc last_close atr_value stop_abs stop_pct notional position_base
        (position_base * stop_abs) notional (bar_to_seconds (bar_var self))
        median_seconds (pyfloat_div median_seconds 3600)).

(** [acquired] when a custom ATR is on the form, less the ATR: the final
    close of the fetched series on the exchange path, the quoted price
    on the other. *)
Definition last_price_custom (self : App) (feed : Feed) (atr_n : Z) : result Q :=
  match mode_var self with
  | CEX =>
      candles <- from_feed (fetch_okx_candles feed (Z.max (atr_n + 2) 50)) ;;
      check negb (Nat.eqb (length candles) 0) else_raise ValueError NoCandles ;;
      last <- py_index candles (-1) ;;
      Ok (close last)
  | DEX => from_feed (fetch_dex_price_by_token feed)
  end.

(** The distance of a level stop, as [compute_stop_distance] forms it
    from the side on the form. *)
Definition level_distance (sd : side) (last_close stop_level : Q) : Q :=
  match sd with
  | Long => Qmax 0 (last_close - stop_level)
  | Short => Qmax 0 (stop_level - last_close)
  end.

(** The form with another text in the custom ATR box. *)
Definition with_custom_atr (self : App) (e : entry Q) : App :=
  mkApp (mode_var self) (bar_var self) (atr_n_var self) (open_notional_var self)
        e (stop_pct_var self) (stop_level_var self) (side_var self).

(** ** The ATR as the specification words it *)

Definition no_candle : Candle := mkCandle 0 0 0 0 0.

(** The True Range that the first loop of [compute_atr] appends for
    index [i]. *)
Definition true_range_at (candles : list Candle) (i : nat) : Q :=
  compute_true_range (close (nth (i - 1) candles no_candle))
    (high (nth i candles no_candle)) (low (nth i candles no_candle)).

(** The written definition: the True Range of candle [i >= 1] is
    [max(high_i - low_i, |high_i - close_(i-1)|, |low_i - close_(i-1)|)],
    and the ATR at the last candle is the plain arithmetic mean of the
    last [period] True Ranges. *)
Definition spec_true_range (candles : list Candle) (i : nat) : Q :=
  let cur := nth i candles no_candle in
  let prev := nth (i - 1) candles no_candle in
  Qmax (high cur - low cur)
       (Qmax (Qabs (high cur - close prev)) (Qabs (low cur - close prev))).

Definition spec_mean (xs : list Q) : Q :=
  fold_right Qplus 0 xs / inject_Z (Z.of_nat (length xs)).

Definition spec_atr (candles : list Candle) (period : nat) : Q :=
  spec_mean (map (spec_true_range candles) (seq (length candles - period) period)).

(** ** Results up to the equality of rationals *)

Definition pyfloat_equiv (x y : pyfloat) : Prop :=
  match x, y with
  | Fin a, Fin b => a == b
  | PosInf, PosInf => True
  | _, _ => False
  end.

Definition Calc_equiv (r1 r2 : Calc) : Prop :=
  last_close r1 == last_close r2
  /\ atr_value r1 == atr_value r2
  /\ stop_abs r1 == stop_abs r2
  /\ stop_pct r1 == stop_pct r2
  /\ open_notional r1 == open_notional r2
  /\ position_base r1 == position_base r2
  /\ loss_quote r1 == loss_quote r2
  /\ notional_quote r1 == notional_quote r2
  /\ dt_seconds r1 = dt_seconds r2
  /\ pyfloat_equiv (median_seconds r1) (median_seconds r2)
  /\ pyfloat_equiv (median_hours r1) (median_hours r2).

Definition pair_equiv (x y : Q * Q) : Prop := fst x == fst y /\ snd x == snd y.

(** Same exception, or values related by [R]. *)
Definition result_equiv {A} (R : A -> A -> Prop) (x y : result A) : Prop :=
  match x, y with
  | inl e1, inl e2 => e1 = e2
  | inr a, inr b => R a b
  | _, _ => False
  end.

(** ** Sample forms, series and feeds *)

(** Exchange mode, hourly bars, period 14, notional 100; the arguments
    fill the stop boxes and the custom ATR box. *)
Definition level_form (sd : side) (lvl : Q) : App :=
  mkApp CEX "1H" (Parsed 14%Z) (Parsed 100) Blank Blank (Parsed lvl) sd.

Definition pct_form (v : Q) : App :=
  mkApp CEX "1H" (Parsed 14%Z) (Parsed 100) Blank (Parsed v) Blank Long.

Definition both_form (v lvl : Q) (sd : side) : App :=
  mkApp CEX "1H" (Parsed 14%Z) (Parsed 100) Blank (Parsed v) (Parsed lvl) sd.

Definition empty_form : App :=
  mkApp CEX "1H" (Parsed 14%Z) (Parsed 100) Blank Blank Blank Long.

Definition custom_form (a : Q) : App :=
  mkApp CEX "1H" (Parsed 14%Z) (Parsed 100) (Parsed a) (Parsed 5) Blank Long.

Definition sizing_form (notional : Q) : App :=
  mkApp CEX "1H" (Parsed 14%Z) (Parsed notional) (Parsed 1) (Parsed 4) Blank Long.

(** A feed that returns [cs] whatever the limit, and no quoted price. *)
Definition series_feed (cs : list Candle) : Feed := mkFeed (fun _ => Some cs) None.

Definition one_candle_feed (c : Q) : Feed := series_feed [mkCandle 0 c c c c].

Definition short_series : list Candle := [mkCandle 0 100 100 100 100].

Definition long_series : list Candle :=
  [mkCandle 0 90 95 85 92; mkCandle 1 92 99 91 97; mkCandle 2 97 103 96 100].

(** Closes 1, 2, 3, 2; True Ranges 2, 1, 3. *)
Definition sample_series : list Candle :=
  [mkCandle 0 1 2 0 1; mkCandle 1 1 3 1 2; mkCandle 2 2 3 2 3; mkCandle 3 1 4 1 2].

(** Fifteen hourly candles, each with True Range 1, closing at 100. *)
Definition flat_series : list Candle :=
  repeat (mkCandle 0 100 (1005 # 10) (995 # 10) 100) 15.

(** ** Price changes of unit and of origin *)

(** Every price of a candle moved by [t], and multiplied by [k]. *)
Definition shift_candle (t : Q) (c : Candle) : Candle :=
  mkCandle (ts c) (open c + t) (high c + t) (low c + t) (close c + t).

Definition scale_candle (k : Q) (c : Candle) : Candle :=
  mkCandle (ts c) (k * open c) (k * high c) (k * low c) (k * close c).

(** The list [trs] that the first loop of [compute_atr] builds. *)
Definition true_ranges (candles : list Candle) : list Q :=
  map (true_range_at candles) (seq 1 (length candles - 1)).

(** ** More sample forms *)


(** DEX mode with a 5 percent stop. *)
Definition dex_form (custom : entry Q) : App :=
  mkApp DEX "1H" (Parsed 14%Z) (Parsed 100) custom (Parsed 5) Blank Long.

(** CEX mode with period [n], no custom ATR, a 5 percent stop. *)
Definition period_form (n : Z) : App :=
  mkApp CEX "1H" (Parsed n) (Parsed 100) Blank (Parsed 5) Blank Long.

(** ** [App.parse_inst_symbols] *)

(** ["-" in s].  A string is its UTF-8 bytes; the byte of ["-"] occurs
    in no longer sequence, so the first dash byte is the first dash. *)
Fixpoint has_dash (s : string) : bool :=
  match s with
  | EmptyString => false
  | String c rest => if Ascii.eqb c "-"%char then true else has_dash rest
  end.

(** [s.split("-", 1)] for a string with a dash in it: the text before
    the first dash and the text after it. *)
Fixpoint split_at_dash (s : string) : string * string :=
  match s with
  | EmptyString => (EmptyString, EmptyString)
  | String c rest =>
      if Ascii.eqb c "-"%char then (EmptyString, rest)
      else let (base, quote) := split_at_dash rest in (String c base, quote)
  end.

Definition parse_inst_symbols (inst : string) : string * string :=
  if has_dash inst then split_at_dash inst else (inst, "USDT"%string).

(** ** [fetch_okx_candles], after the reply has arrived *)

(** One string field of a reply, by what [int()] and [float()] make of
    it; [None] is text the conversion rejects. *)
Record Cell : Set := mkCell {
  as_int : option Z;
  as_float : option Q
}.

Definition py_int (c : Cell) : result Z :=
  match as_int c with
  | Some z => Ok z
  | None => raise (ValueError NotANumber)
  end.

Definition py_float (c : Cell) : result Q :=
  match as_float c with
  | Some q => Ok q
  | None => raise (ValueError NotANumber)
  end.

(** The JSON of the candles reply: its ["code"] and the rows of its
    ["data"], each row a list of string fields; [None] is a key that is
    missing.  A ["data"] that is not a list of such rows, [null] for
    one, is outside this type. *)
Record OkxReply : Set := mkOkxReply {
  okx_code : option string;
  okx_data : option (list (list Cell))
}.

(** The dictionary built for one row
    [[ts, o, h, l, c, vol, volCcy, volCcyQuote, confirm]]. *)
Definition okx_candle (item : list Cell) : result Candle :=
  c0 <- py_index item 0 ;; ts <- py_int c0 ;;
  c1 <- py_index item 1 ;; open <- py_float c1 ;;
  c2 <- py_index item 2 ;; high <- py_float c2 ;;
  c3 <- py_index item 3 ;; low <- py_float c3 ;;
  c4 <- py_index item 4 ;; close <- py_float c4 ;;
  Ok (mkCandle ts open high low close).

(** [data.get("data", [])]. *)
Definition okx_rows (data : OkxReply) : list (list Cell) :=
  match okx_data data with
  | Some rows => rows
  | None => []
  end.

(** The body of [fetch_okx_candles] from [data = resp.json()] on; the
    [RuntimeError] of a reply whose code is not ["0"] is [FeedError]. *)
Definition okx_candles_of_reply (data : OkxReply) : result (list Candle) :=
  check (match okx_code data with
         | Some code => String.eqb code "0"
         | None => false
         end) else_raise FeedError ;;
  candles <- py_collect okx_candle (okx_rows data) ;;
  Ok (rev candles).

(** A feed whose candle call answers with the reply [replies limit]. *)
Definition okx_feed (replies : Z -> OkxReply) (dex : option Q) : Feed :=
  mkFeed (fun limit =>
            match okx_candles_of_reply (replies limit) with
            | inr candles => Some candles
            | inl _ => None
            end) dex.

(** The first field of a row as a time stamp. *)
Definition row_ts (item : list Cell) : option Z :=
  match item with
  | c0 :: _ => as_int c0
  | [] => None
  end.

(** Row [a] is later than row [b]. *)
Definition newer (a b : list Cell) : Prop :=
  exists ta tb, row_ts a = Some ta /\ row_ts b = Some tb /\ (tb < ta)%Z.

Definition cell (z : Z) : Cell := mkCell (Some z) (Some (inject_Z z)).

Definition sample_reply : OkxReply :=
  mkOkxReply (Some "0"%string)
    (Some [[cell 3000; cell 12; cell 14; cell 11; cell 13; cell 7];
           [cell 2000; cell 10; cell 13; cell 9; cell 12; cell 5];
           [cell 1000; cell 9; cell 11; cell 8; cell 10; cell 6]]).

(** A row [fetch_okx_candles] can read: five fields or more, the first
    an integer, the next four floats. *)
Definition row_readable (item : list Cell) : bool :=
  match item with
  | c0 :: c1 :: c2 :: c3 :: c4 :: _ =>
      match as_int c0, as_float c1, as_float c2, as_float c3, as_float c4 with
      | Some _, Some _, Some _, Some _, Some _ => true
      | _, _, _, _, _ => false
      end
  | _ => false
  end.

(** ** [fetch_dex_price_by_token], after the reply has arrived *)

(** One element of the ["pairs"] list, by the keys the function reads;
    [None] is a key that is missing or [null].  For the two symbols the
    key is ["symbol"] in a token object that is present, or the token
    object is missing; a token object that is itself [null] is outside
    this type. *)
Record Pair : Set := mkPair {
  chainId : option string;
  quoteToken_symbol : option string;     (* p["quoteToken"]["symbol"] *)
  baseToken_symbol : option string;      (* p["baseToken"]["symbol"] *)
  liquidity_usd : option Q;              (* p["liquidity"]["usd"], a number *)
  priceUsd : option Cell;                (* a string, read with float() *)
  dexId : option string;
  pairAddress : option string
}.

(** The JSON of the reply: ["pairs"], and ["pairs"] under ["data"];
    [None] is a list that is missing or [null].  A ["data"] that is
    itself [null] is outside this type. *)
Record DexReply : Set := mkDexReply {
  reply_pairs : option (list Pair);
  reply_data_pairs : option (list Pair)
}.

(** The three [ValueError]s of the function (l.66, l.73, l.89), the
    [ValueError] of [float()], and the [IndexError] of [pairs[0]]. *)
Inductive dex_error : Set :=
  | TokenAddressMissing
  | PairsNotFound
  | PriceUsdMissing
  | PriceNotANumber
  | NoFirstPair.

(** The tuple returned. *)
Record DexQuote : Set := mkDexQuote {
  quote_price : Q;
  quote_dex : option string;
  quote_pair : option string;
  quote_base : string;
  quote_quote : string
}.

(** [x or d] on an optional string, an optional list, an optional
    number: [None], the empty string, the empty list and zero are
    false. *)
Definition str_or (x : option string) (d : string) : string :=
  match x with
  | Some (String c s) => String c s
  | _ => d
  end.

Definition list_or {A} (x : option (list A)) (d : list A) : list A :=
  match x with
  | Some (a :: l) => a :: l
  | _ => d
  end.

Definition float_or (x : option Q) (d : Q) : Q :=
  match x with
  | Some q => if Qeq_bool q 0 then d else q
  | None => d
  end.

(** [s in l] for a list of strings. *)
Definition str_in (s : string) (l : list string) : bool :=
  existsb (String.eqb s) l.

Definition wrapped_quotes : list string :=
  ["WETH"; "WBNB"; "WMATIC"; "WBTC"; "WAVAX"; "ETH"; "BNB"]%string.

(** The inner function [score]; [upper] is [str.upper]. *)
Definition score (upper : string -> string) (prefer_quotes : list string)
    (p : Pair) : Z * Q :=
  let quote_sym := upper (str_or (quoteToken_symbol p) "") in
  let liq := float_or (liquidity_usd p) 0 in
  let stable_bonus :=
    if str_in quote_sym prefer_quotes then 2%Z
    else if str_in quote_sym wrapped_quotes then 1%Z else 0%Z in
  (stable_bonus, liq).

(** [a < b] on the tuples [score] returns: the first components
    decide unless they are equal. *)
Definition key_ltb (a b : Z * Q) : bool :=
  (fst a <? fst b)%Z || ((fst a =? fst b)%Z && Qltb (snd a) (snd b)).

(** [pairs.sort(key=key, reverse=True)]: descending, and stable, equal
    keys keeping the order they came in. *)
Fixpoint insert_desc {A} (key : A -> Z * Q) (x : A) (l : list A) : list A :=
  match l with
  | [] => [x]
  | y :: ys =>
      if key_ltb (key x) (key y) then y :: insert_desc key x ys
      else x :: y :: ys
  end.

Definition sort_desc {A} (key : A -> Z * Q) (l : list A) : list A :=
  fold_right (insert_desc key) [] l.

(** The test of the chain filter; [lower] is [str.lower]. *)
Definition on_chain (lower : string -> string) (chain_id : string) (p : Pair) : bool :=
  String.eqb (lower (str_or (chainId p) "")) (lower chain_id).

(** The body of [fetch_dex_price_by_token] from [data = resp.json()]
    on, with the test of the address that comes before the request. *)
Definition dex_price_of_reply (lower upper : string -> string)
    (chain_id token_address : string) (prefer_quotes : option (list string))
    (data : DexReply) : dex_error + DexQuote :=
  let prefer_quotes :=
    match prefer_quotes with
    | None => ["USDT"; "USDC"]%string
    | Some l => l
    end in
  if String.eqb token_address "" then inl TokenAddressMissing
  else
    let pairs := list_or (reply_pairs data) (list_or (reply_data_pairs data) []) in
    match pairs with
    | [] => inl PairsNotFound
    | _ :: _ =>
        let pairs :=
          if negb (String.eqb chain_id "") then
            let pairs_filtered := filter (on_chain lower chain_id) pairs in
            match pairs_filtered with
            | [] => pairs
            | _ :: _ => pairs_filtered
            end
          else pairs in
        let pairs := sort_desc (score upper prefer_quotes) pairs in
        match pairs with
        | [] => inl NoFirstPair
        | best :: _ =>
            match priceUsd best with
            | None => inl PriceUsdMissing
            | Some price_usd =>
                let base_sym := str_or (baseToken_symbol best) "Token" in
                let quote_sym := str_or (quoteToken_symbol best) "USD" in
                match as_float price_usd with
                | None => inl PriceNotANumber
                | Some price =>
                    inr (mkDexQuote price (dexId best) (pairAddress best)
                           base_sym quote_sym)
                end
            end
        end
    end.

(** The order of the sort keys, as a proposition. *)
Definition key_lt (a b : Z * Q) : Prop :=
  (fst a < fst b)%Z \/ (fst a = fst b /\ snd a < snd b).

(** The list that is sorted: the pairs on the chain asked for when
    there are any, all the pairs otherwise. *)
Definition candidates (lower : string -> string) (chain_id : string)
    (pairs : list Pair) : list Pair :=
  if negb (String.eqb chain_id "") then
    match filter (on_chain lower chain_id) pairs with
    | [] => pairs
    | _ :: _ => filter (on_chain lower chain_id) pairs
    end
  else pairs.

(** [prefer_quotes] with its default. *)
Definition preferred (prefer_quotes : option (list string)) : list string :=
  match prefer_quotes with
  | None => ["USDT"; "USDC"]%string
  | Some l => l
  end.

(** The pairs of the reply, ["pairs"] first. *)
Definition reply_all_pairs (data : DexReply) : list Pair :=
  list_or (reply_pairs data) (list_or (reply_data_pairs data) []).

(** Upper and lower case of ASCII letters, byte by byte; what
    [str.upper] and [str.lower] do on ASCII text. *)
Definition upper_char (c : ascii) : ascii :=
  let n := nat_of_ascii c in
  if ((97 <=? n) && (n <=? 122))%nat then ascii_of_nat (n - 32) else c.

Definition lower_char (c : ascii) : ascii :=
  let n := nat_of_ascii c in
  if ((65 <=? n) && (n <=? 90))%nat then ascii_of_nat (n + 32) else c.

Fixpoint map_string (f : ascii -> ascii) (s : string) : string :=
  match s with
  | EmptyString => EmptyString
  | String c rest => String (f c) (map_string f rest)
  end.

Definition ascii_upper : string -> string := map_string upper_char.
Definition ascii_lower : string -> string := map_string lower_char.

Definition text_cell (q : Q) : Cell := mkCell None (Some q).

(** Three pairs of one token: a deep pool against wrapped BNB and a
    shallow one against USDT on BSC, and a deep USDC pool on Ethereum. *)
Definition bsc_wbnb_pair : Pair :=
  mkPair (Some "bsc"%string) (Some "WBNB"%string) (Some "CAKE"%string)
    (Some 900000) (Some (text_cell 2)) (Some "pancakeswap"%string) (Some "0xa"%string).

Definition bsc_usdt_pair : Pair :=
  mkPair (Some "bsc"%string) (Some "usdt"%string) (Some "CAKE"%string)
    (Some 1000) (Some (text_cell 3)) (Some "biswap"%string) (Some "0xb"%string).

Definition eth_usdc_pair : Pair :=
  mkPair (Some "ethereum"%string) (Some "USDC"%string) (Some "CAKE"%string)
    (Some 5000000) (Some (text_cell 4)) (Some "uniswap"%string) (Some "0xc"%string).

Definition sample_dex_reply : DexReply :=
  mkDexReply (Some [bsc_wbnb_pair; bsc_usdt_pair; eth_usdc_pair]) None.

Definition sample_dex_quote : DexQuote :=
  mkDexQuote 3 (Some "biswap"%string) (Some "0xb"%string) "CAKE" "usdt".

(** ** [App.on_mode_change] *)

(** The two texts of the instrument label. *)
Inductive inst_label_text : Set :=
  | InstIdLabel           (* l.289: asks for an instId such as BTC-USDT *)
  | TokenAddressLabel.    (* l.296: asks for a token contract address *)

(** The widgets [on_mode_change] reads and writes. *)
Record Window : Set := mkWindow {
  mode_combo : mode;              (* mode_var, set by the combobox *)
  inst_var : string;
  inst_label : inst_label_text;
  chain_shown : bool;             (* chain_label and chain_combo on the grid *)
  price_var : string;
  status_var : string
}.

(** [upper] is [str.upper]. *)
Definition on_mode_change (upper : string -> string) (self : Window) : Window :=
  let mode := mode_combo self in
  let self :=
    match mode with
    | CEX =>
        mkWindow mode
          (if String.eqb (inst_var self) "" then "BTC-USDT"%string else inst_var self)
          InstIdLabel false (price_var self) (status_var self)
    | DEX =>
        mkWindow mode
          (if String.eqb (upper (inst_var self)) "BTC-USDT" then ""%string
           else inst_var self)
          TokenAddressLabel true (price_var self) (status_var self)
    end in
  mkWindow (mode_combo self) (inst_var self) (inst_label self) (chain_shown self)
    "--" "".

(** Choosing a mode in the combobox: the variable is set, then the
    bound handler runs. *)
Definition select_mode (upper : string -> string) (m : mode) (self : Window) : Window :=
  on_mode_change upper
    (mkWindow m (inst_var self) (inst_label self) (chain_shown self)
       (price_var self) (status_var self)).

Definition start_window : Window :=
  mkWindow CEX "btc-usdt" InstIdLabel false "42000.000000" "BTC-USDT".

(** ** The calculation on IEEE doubles

    The rational model above cannot overflow, underflow or hold a NaN.
    Where a statement turns on that, the functions concerned are
    embedded a second time here on binary64 floats, the type of a
    Python [float]: the arithmetic and the comparisons are the
    primitive IEEE operations, and [float(s)] may read any double, the
    infinities and NaN among them.  [py_range], [py_slice],
    [bar_to_seconds] and the types of the form are those above. *)
Module IEEE.

Local Open Scope float_scope.

(** The exceptions: those of the rational model, and the
    [OverflowError] of float arithmetic. *)
Inductive exn : Set :=
  | ValueError (m : message)
  | ZeroDivisionError        (* x / y with y == 0.0 *)
  | OverflowError            (* x ** 2, or float(n), out of the range of a double *)
  | IndexError
  | FeedError.               (* anything raised by the price feed calls *)

Definition result (A : Type) : Type := (exn + A)%type.

Definition Ok {A} (a : A) : result A := inr a.
Definition raise {A} (e : exn) : result A := inl e.

Definition bind {A B} (c : result A) (k : A -> result B) : result B :=
  match c with
  | inl e => inl e
  | inr a => k a
  end.

Declare Scope ieee_scope.
Notation "x <- c ;; k" := (bind c (fun x => k))
  (at level 61, c at next level, right associativity) : ieee_scope.
Notation "' pat <- c ;; k" := (bind c (fun x => match x with pat => k end))
  (at level 61, pat pattern, c at next level, right associativity) : ieee_scope.
Notation "'check' b 'else_raise' e ;; k" := (if b then k else raise e)
  (at level 61, b at next level, e at next level, right associativity) : ieee_scope.
Local Open Scope ieee_scope.

(** [float(s)] and [int(s)] on the text of a box. *)
Definition py_parse {A} (e : entry A) : result A :=
  match e with
  | Parsed a => Ok a
  | _ => raise (ValueError NotANumber)
  end.

(** [a / b]: Python raises on a zero divisor, of either sign; every
    other quotient is the IEEE one, infinities and NaN included. *)
Definition py_div (a b : float) : result float :=
  if b =? 0 then raise ZeroDivisionError else Ok (a / b).

(** When [x ** 2] is out of range: [x] is finite and its square is
    not. *)
Definition pow2_overflows (x : float) : bool :=
  is_finite x && is_infinity (x * x).

(** [x ** 2].  [float.__pow__] returns NaN for NaN and infinity for an
    infinity, and otherwise calls C [pow], raising [OverflowError] when
    the result overflows; an underflow to zero is returned.  The value
    of [pow(x, 2.0)] is taken to be the correctly rounded square. *)
Definition py_pow2 (x : float) : result float :=
  if pow2_overflows x then raise OverflowError else Ok (x * x).

(** [max(a, b)]: the second argument only if it is greater; and
    [max(a, b, c)], which scans left to right. *)
Definition py_max (a b : float) : float := if a <? b then b else a.

Definition py_max3 (a b c : float) : float := py_max (py_max a b) c.

(** The double nearest to an integer, ties to even; infinite when the
    integer is out of range. *)
Definition int_to_float (n : Z) : float :=
  SF2Prim (binary_normalize prec emax n 0 false).

(** The conversion of an [int] operand of float arithmetic. *)
Definition py_float_of_int (n : Z) : result float :=
  if is_infinity (int_to_float n) then raise OverflowError
  else Ok (int_to_float n).

(** [sum(xs) / n] for a list of floats and an integer.  The sum of no
    floats is the integer [0], and [0 / n] is a division of integers:
    zero with the sign of [n].  Otherwise the sum is the float sum,
    taken left to right, and [n] is converted before the division. *)
Definition py_sum_div (xs : list float) (n : Z) : result float :=
  match xs with
  | [] =>
      if (n =? 0)%Z then raise ZeroDivisionError
      else Ok (if (n <? 0)%Z then -0 else 0)
  | _ :: _ =>
      d <- py_float_of_int n ;;
      py_div (fold_left add xs 0) d
  end.

(** [l[i]], a negative index counting from the end. *)
Definition py_index {A} (l : list A) (i : Z) : result A :=
  let len := Z.of_nat (length l) in
  let j := if (i <? 0)%Z then (i + len)%Z else i in
  if (j <? 0)%Z then raise IndexError
  else match nth_error l (Z.to_nat j) with
       | Some a => Ok a
       | None => raise IndexError
       end.

(** [for x in xs: acc.append(f(x))], stopping at the first exception. *)
Fixpoint py_collect {A B} (f : A -> result B) (xs : list A) : result (list B) :=
  match xs with
  | [] => Ok []
  | x :: xs' =>
      y <- f x ;;
      ys <- py_collect f xs' ;;
      Ok (y :: ys)
  end.

Record Candle : Set := mkCandle {
  ts : Z;
  open : float;
  high : float;
  low : float;
  close : float
}.

Definition compute_true_range (prev_close high low : float) : float :=
  py_max3 (high - low) (abs (high - prev_close)) (abs (low - prev_close)).

Definition compute_atr (candles : list Candle) (period : Z) : result float :=
  let len := Z.of_nat (length candles) in
  check negb (len <? period + 1)%Z else_raise ValueError TooFewCandlesForATR ;;
  trs <- py_collect (fun i =>
           prev <- py_index candles (i - 1) ;;
           cur <- py_index candles i ;;
           Ok (compute_true_range (close prev) (high cur) (low cur)))
         (py_range 1 len) ;;
  atr_values <- py_collect (fun i =>
           let window := py_slice trs (i - (period - 1)) (i + 1) in
           py_sum_div window period)
         (py_range (period - 1) (Z.of_nat (length trs))) ;;
  py_index atr_values (-1).

(** On three floats.  At its one call, in [on_calculate],
    [dt_seconds] is the integer of [bar_to_seconds], which the product
    converts exactly. *)
Definition median_hitting_time_bm (sigma barrier_abs dt_seconds : float) : result float :=
  if sigma <=? 0 then Ok infinity
  else
    r <- py_div barrier_abs sigma ;;
    sq <- py_pow2 r ;;
    let steps := 0.5 * sq in
    Ok (steps * dt_seconds).

(** The boxes of the form, their numbers now doubles. *)
Record App : Type := mkApp {
  mode_var : mode;
  bar_var : string;
  atr_n_var : entry Z;
  open_notional_var : entry float;
  custom_atr_var : entry float;
  stop_pct_var : entry float;
  stop_level_var : entry float;
  side_var : side
}.

Record Feed : Type := mkFeed {
  fetch_okx_candles : Z -> option (list Candle);
  fetch_dex_price_by_token : option float
}.

Definition from_feed {A} (r : option A) : result A :=
  match r with
  | Some a => Ok a
  | None => raise FeedError
  end.

Definition compute_stop_distance (self : App) (last_close : float)
    : result (float * float) :=
  if nonblank (stop_pct_var self) then
    pct <- py_parse (stop_pct_var self) ;;
    check negb (pct <=? 0) else_raise ValueError StopPctNotPositive ;;
    let dist := last_close * (pct / 100) in
    Ok (dist, pct)
  else
    check nonblank (stop_level_var self) else_raise ValueError StopInputMissing ;;
    stop_level <- py_parse (stop_level_var self) ;;
    let dist :=
      match side_var self with
      | Long => py_max 0 (last_close - stop_level)
      | Short => py_max 0 (stop_level - last_close)
      end in
    check negb (dist <=? 0) else_raise ValueError StopDistanceInvalid ;;
    r <- py_div dist last_close ;;
    let pct := r * 100 in
    Ok (dist, pct).

Record Calc : Set := mkCalc {
  last_close : float;
  atr_value : float;
  stop_abs : float;
  stop_pct : float;
  open_notional : float;
  position_base : float;
  loss_quote : float;
  notional_quote : float;
  dt_seconds : Z;
  median_seconds : float;
  median_hours : float
}.

(** The body of [on_calculate], as in the rational model: the ATR
    routine is a parameter, the widget updates are left out and the
    exception caught by the [except] clause is returned. *)
Definition on_calculate_with (atr : list Candle -> Z -> result float)
    (self : App) (feed : Feed) : result Calc :=
  let mode := mode_var self in
  let bar := bar_var self in
  atr_n <- py_parse (atr_n_var self) ;;
  open_notional <- py_parse (open_notional_var self) ;;
  let custom_atr := custom_atr_var self in
  check negb (open_notional <=? 0) else_raise ValueError NotionalNotPositive ;;
  '(atr_value, last_close) <-
    match mode with
    | CEX =>
        if nonblank custom_atr then
          atr_value <- py_parse custom_atr ;;
          candles <- from_feed (fetch_okx_candles feed (Z.max (atr_n + 2) 50)) ;;
          check negb (Nat.eqb (length candles) 0) else_raise ValueError NoCandles ;;
          last <- py_index candles (-1) ;;
          Ok (atr_value, close last)
        else
          candles <- from_feed (fetch_okx_candles feed (Z.max (atr_n + 50) 100)) ;;
          check negb (Z.of_nat (length candles) <? atr_n + 1)%Z
            else_raise ValueError TooFewCandles ;;
          atr_value <- atr candles atr_n ;;
          last <- py_index candles (-1) ;;
          Ok (atr_value, close last)
    | DEX =>
        price_usd <- from_feed (fetch_dex_price_by_token feed) ;;
        let last_close := price_usd in
        if nonblank custom_atr then
          atr_value <- py_parse custom_atr ;;
          Ok (atr_value, last_close)
        else raise (ValueError DexNeedsCustomATR)
    end ;;
  '(stop_abs, stop_pct) <- compute_stop_distance self last_close ;;
  position_base <- py_div open_notional last_close ;;
  let loss_quote := position_base * stop_abs in
  let notional_quote := open_notional in
  let dt_seconds := bar_to_seconds bar in
  median_seconds <- median_hitting_time_bm atr_value stop_abs (int_to_float dt_seconds) ;;
  let median_hours := median_seconds / 3600 in
  Ok (mkCalc last_close atr_value stop_abs stop_pct open_notional position_base
        loss_quote notional_quote dt_seconds median_seconds median_hours).

Definition on_calculate : App -> Feed -> result Calc :=
  on_calculate_with compute_atr.

(** The two halves of the handler, named as in the rational model: the
    [if mode == "CEX": ... else: ...] statement, and the rest. *)
Definition acquired (atr : list Candle -> Z -> result float)
    (self : App) (feed : Feed) (atr_n : Z) : result (float * float) :=
  match mode_var self with
  | CEX =>
      if nonblank (custom_atr_var self) then
        atr_value <- py_parse (custom_atr_var self) ;;
        candles <- from_feed (fetch_okx_candles feed (Z.max (atr_n + 2) 50)) ;;
        check negb (Nat.eqb (length candles) 0) else_raise ValueError NoCandles ;;
        last <- py_index candles (-1) ;;
        Ok (atr_value, close last)
      else
        candles <- from_feed (fetch_okx_candles feed (Z.max (atr_n + 50) 100)) ;;
        check negb (Z.of_nat (length candles) <? atr_n + 1)%Z
          else_raise ValueError TooFewCandles ;;
        atr_value <- atr candles atr_n ;;
        last <- py_index candles (-1) ;;
        Ok (atr_value, close last)
  | DEX =>
      price_usd <- from_feed (fetch_dex_price_by_token feed) ;;
      if nonblank (custom_atr_var self) then
        atr_value <- py_parse (custom_atr_var self) ;;
        Ok (atr_value, price_usd)
      else raise (ValueError DexNeedsCustomATR)
  end.

Definition finish (self : App) (notional atr_value last_close : float) : result Calc :=
  '(stop_abs, stop_pct) <- compute_stop_distance self last_close ;;
  position_base <- py_div notional last_close ;;
  median_seconds <- median_hitting_time_bm atr_value stop_abs
                      (int_to_float (bar_to_seconds (bar_var self))) ;;
  Ok (mkCalc last_close atr_value stop_abs stop_pct notional position_base
        (position_base * stop_abs) notional (bar_to_seconds (bar_var self))
        median_seconds (median_seconds / 3600)).

(** The last price when a custom ATR is on the form: the final close
    of the fetched series on the exchange path, the quoted price on the
    other. *)
Definition last_price_custom (self : App) (feed : Feed) (atr_n : Z) : result float :=
  match mode_var self with
  | CEX =>
      candles <- from_feed (fetch_okx_candles feed (Z.max (atr_n + 2) 50)) ;;
      check negb (Nat.eqb (length candles) 0) else_raise ValueError NoCandles ;;
      last <- py_index candles (-1) ;;
      Ok (close last)
  | DEX => from_feed (fetch_dex_price_by_token feed)
  end.

(** Sample forms: a percentage stop, a level stop, a 4 percent stop
    with a given notional, and a 5 percent stop with a custom ATR, on
    the exchange and on chain. *)
Definition pct_form (v : float) : App :=
  mkApp CEX "1H" (Parsed 14%Z) (Parsed 100) Blank (Parsed v) Blank Long.

Definition level_form (sd : side) (lvl : float) : App :=
  mkApp CEX "1H" (Parsed 14%Z) (Parsed 100) Blank Blank (Parsed lvl) sd.

Definition sizing_form (notional : float) : App :=
  mkApp CEX "1H" (Parsed 14%Z) (Parsed notional) (Parsed 1) (Parsed 4) Blank Long.

Definition custom_form (a : float) : App :=
  mkApp CEX "1H" (Parsed 14%Z) (Parsed 100) (Parsed a) (Parsed 5) Blank Long.

Definition dex_form (a : float) : App :=
  mkApp DEX "1H" (Parsed 14%Z) (Parsed 100) (Parsed a) (Parsed 5) Blank Long.

(** Sample feeds: a fixed series whatever the limit, and a quote. *)
Definition series_feed (cs : list Candle) : Feed := mkFeed (fun _ => Some cs) None.

Definition quote_feed (price : float) : Feed := mkFeed (fun _ => None) (Some price).

Definition short_series : list Candle := [mkCandle 0 100 100 100 100].

Definition long_series : list Candle :=
  [mkCandle 0 90 95 85 92; mkCandle 1 92 99 91 97; mkCandle 2 97 103 96 100].

(** Sixteen hourly candles, each ranging one unit about a close of 100. *)
Definition flat_series : list Candle :=
  map (fun k => mkCandle k 100 100.5 99.5 100) (py_range 0 16).

(** The doubles nearest to [1e200] and [1e-153], and the smallest
    positive double, which is what [float("5e-324")] reads. *)
Definition f_1e200 : float := 0x1.4e718d7d7625ap+664.
Definition f_1e_153 : float := 0x1.ad0cc33744e4bp-509.
Definition f_5e_324 : float := 0x1p-1074.

End IEEE.

(** * Properties *)

(** ** Comparisons and the error monad *)

Lemma Qleb_true (a b : Q) : Qleb a b = true <-> a <= b.
Proof. unfold Qleb. apply Qle_bool_iff. Qed.

Lemma Qleb_false (a b : Q) : Qleb a b = false <-> b < a.
Proof.
  unfold Qleb. split; intros H.
  - apply Qnot_le_lt. intros Hle. apply Qle_bool_iff in Hle. congruence.
  - destruct (Qle_bool a b) eqn:E; [|reflexivity].
    apply Qle_bool_iff in E. exfalso. apply (Qlt_not_le _ _ H E).
Qed.

Lemma py_div_ok (a b : Q) : ~ b == 0 -> py_div a b = Ok (a / b).
Proof.
  intros Hb. unfold py_div.
  destruct (Qeq_bool b 0) eqn:E; [|reflexivity].
  apply Qeq_bool_iff in E. contradiction.
Qed.

Lemma py_div_zero (a b : Q) : b == 0 -> py_div a b = raise ZeroDivisionError.
Proof.
  intros Hb. unfold py_div. apply Qeq_bool_iff in Hb. now rewrite Hb.
Qed.

Ltac qorder := unfold Qlt, Qle, Qeq; simpl; lia.

(** ** The hitting time *)

Lemma median_hitting_time_bm_pos (sigma barrier_abs dt : Q) :
  0 < sigma ->
  median_hitting_time_bm sigma barrier_abs dt
  = Ok (Fin ((1 # 2) * (barrier_abs / sigma) ^ 2 * dt)).
Proof.
  intros H. unfold median_hitting_time_bm.
  rewrite (proj2 (Qleb_false sigma 0) H).
  rewrite py_div_ok; [reflexivity|].
  intros E. rewrite E in H. apply (Qlt_irrefl 0 H).
Qed.

Lemma median_hitting_time_bm_nonpos (sigma barrier_abs dt : Q) :
  sigma <= 0 -> median_hitting_time_bm sigma barrier_abs dt = Ok PosInf.
Proof.
  intros H. unfold median_hitting_time_bm.
  now rewrite (proj2 (Qleb_true sigma 0) H).
Qed.

(** ** The stop resolver *)

Lemma level_distance_nonneg sd lp lvl : 0 <= level_distance sd lp lvl.
Proof. destruct sd; apply Q.le_max_l. Qed.

(** The level branch, unfolded once and for all. *)
Lemma compute_stop_distance_level (self : App) (lp lvl : Q) :
  stop_pct_var self = Blank ->
  stop_level_var self = Parsed lvl ->
  compute_stop_distance self lp =
    let d := level_distance (side_var self) lp lvl in
    if Qleb d 0 then raise (ValueError StopDistanceInvalid)
    else (r <- py_div d lp ;; Ok (d, r * 100)).
Proof.
  intros Hp Hl. unfold compute_stop_distance, level_distance, py_max.
  rewrite Hp, Hl. simpl.
  destruct (side_var self); simpl;
    match goal with |- context [Qleb ?d 0] => destruct (Qleb d 0) end;
    reflexivity.
Qed.

(** The percentage branch, unfolded once and for all. *)
Lemma compute_stop_distance_pct (self : App) (lp v : Q) :
  stop_pct_var self = Parsed v ->
  compute_stop_distance self lp =
    if Qleb v 0 then raise (ValueError StopPctNotPositive)
    else Ok (lp * (v / 100), v).
Proof.
  intros Hp. unfold compute_stop_distance. rewrite Hp. simpl.
  destruct (Qleb v 0); reflexivity.
Qed.

Lemma Qpos_neq0 (x : Q) : 0 < x -> ~ x == 0.
Proof. intros H E. rewrite E in H. apply (Qlt_irrefl 0 H). Qed.

(** C3.  With a positive last price and a level stop (no percentage on
    the form), the distance is [max(0, last - level)] for a long and
    [max(0, level - last)] for a short; the call raises the
    invalid-distance error exactly when that distance is [<= 0], and
    otherwise returns the distance with [distance / last * 100]. *)
Theorem compute_stop_distance_level_rule (self : App) (lp lvl : Q) :
  0 < lp ->
  stop_pct_var self = Blank ->
  stop_level_var self = Parsed lvl ->
  let d := match side_var self with
           | Long => Qmax 0 (lp - lvl)
           | Short => Qmax 0 (lvl - lp)
           end in
  (compute_stop_distance self lp = raise (ValueError StopDistanceInvalid) <-> d <= 0)
  /\ (0 < d -> compute_stop_distance self lp = Ok (d, d / lp * 100)).
Proof.
  intros Hlp Hp Hl d.
  rewrite (compute_stop_distance_level self lp lvl Hp Hl).
  change (level_distance (side_var self) lp lvl) with d. cbv zeta.
  destruct (Qleb d 0) eqn:E.
  - apply Qleb_true in E. split.
    + split; [intros _; exact E | reflexivity].
    + intros Hd. exfalso. apply (Qlt_not_le _ _ Hd E).
  - apply Qleb_false in E. rewrite (py_div_ok d lp (Qpos_neq0 lp Hlp)). split.
    + split; [discriminate | intros Hd; exfalso; apply (Qlt_not_le _ _ E Hd)].
    + reflexivity.
Qed.

Lemma compute_stop_distance_level_rule_witness :
  (compute_stop_distance (level_form Long 95) 100 = Ok (Qmax 0 (100 - 95), Qmax 0 (100 - 95) / 100 * 100))
  /\ (compute_stop_distance (level_form Short 95) 100 = raise (ValueError StopDistanceInvalid)).
Proof.
  split.
  - apply (proj2 (compute_stop_distance_level_rule (level_form Long 95) 100 95
                    eq_refl eq_refl eq_refl)).
    reflexivity.
  - apply (proj1 (compute_stop_distance_level_rule (level_form Short 95) 100 95
                    eq_refl eq_refl eq_refl)).
    vm_compute. discriminate.
Defined.

(** C4.  With a percentage [v] on the form the call raises the
    non-positive-percentage error when [v <= 0]; otherwise it returns the
    percentage [v] itself with the distance [last * v / 100]. *)
Theorem compute_stop_distance_percentage_rule (self : App) (lp v : Q) :
  stop_pct_var self = Parsed v ->
  (v <= 0 -> compute_stop_distance self lp = raise (ValueError StopPctNotPositive))
  /\ (0 < v -> exists d, compute_stop_distance self lp = Ok (d, v)
                         /\ d == lp * v / 100).
Proof.
  intros Hp. rewrite (compute_stop_distance_pct self lp v Hp). split; intros H.
  - apply Qleb_true in H. now rewrite H.
  - apply Qleb_false in H. rewrite H.
    exists (lp * (v / 100)). split; [reflexivity|].
    unfold Qdiv. ring.
Qed.

Lemma compute_stop_distance_percentage_rule_witness :
  (exists d, compute_stop_distance (pct_form 10) 100 = Ok (d, 10) /\ d == 10)
  /\ compute_stop_distance (pct_form 0) 100 = raise (ValueError StopPctNotPositive).
Proof.
  split.
  - destruct (proj2 (compute_stop_distance_percentage_rule (pct_form 10) 100 10 eq_refl))
      as [d [Hd Hq]]; [reflexivity|].
    exists d. split; [exact Hd|]. rewrite Hq. reflexivity.
  - apply (proj1 (compute_stop_distance_percentage_rule (pct_form 0) 100 0 eq_refl)).
    qorder.
Defined.

(** C5.  A readable percentage decides the result alone: a positive
    one returns the percentage rule's pair and a non-positive one its
    error, whatever the level box and the side hold, and text that does
    not read as a number is an error too, never a fall back to the
    level.  The level rule is used when the percentage box is empty,
    and only then.  With neither box filled the call raises the
    missing-input error; no default stop is substituted. *)
Theorem compute_stop_distance_precedence (self : App) (lp : Q) :
  (forall v, stop_pct_var self = Parsed v ->
     (0 < v -> compute_stop_distance self lp = Ok (lp * (v / 100), v))
     /\ (v <= 0 ->
         compute_stop_distance self lp = raise (ValueError StopPctNotPositive)))
  /\ (stop_pct_var self = Unparsable ->
      compute_stop_distance self lp = raise (ValueError NotANumber))
  /\ (nonblank (stop_pct_var self) = true ->
      forall self', stop_pct_var self' = stop_pct_var self ->
        compute_stop_distance self' lp = compute_stop_distance self lp)
  /\ (stop_pct_var self = Blank ->
      forall lvl, stop_level_var self = Parsed lvl -> ~ lp == 0 ->
        (0 < level_distance (side_var self) lp lvl ->
           compute_stop_distance self lp
           = Ok (level_distance (side_var self) lp lvl,
                 level_distance (side_var self) lp lvl / lp * 100))
        /\ (level_distance (side_var self) lp lvl <= 0 ->
            compute_stop_distance self lp = raise (ValueError StopDistanceInvalid)))
  /\ (stop_pct_var self = Blank ->
      forall d p, compute_stop_distance self lp = Ok (d, p) ->
        exists lvl, stop_level_var self = Parsed lvl
                    /\ d = level_distance (side_var self) lp lvl)
  /\ (stop_pct_var self = Blank -> stop_level_var self = Blank ->
      compute_stop_distance self lp = raise (ValueError StopInputMissing)).
Proof.
  split; [|split; [|split; [|split; [|split]]]].
  - intros v Hp. rewrite (compute_stop_distance_pct self lp v Hp). split; intros H.
    + now rewrite (proj2 (Qleb_false v 0) H).
    + now rewrite (proj2 (Qleb_true v 0) H).
  - intros Hp. unfold compute_stop_distance. rewrite Hp. reflexivity.
  - intros Hnb self' Heq. unfold compute_stop_distance.
    rewrite Heq, Hnb. reflexivity.
  - intros Hp lvl Hl Hlp.
    rewrite (compute_stop_distance_level self lp lvl Hp Hl). cbv zeta. split; intros H.
    + rewrite (proj2 (Qleb_false _ 0) H), (py_div_ok _ lp Hlp). reflexivity.
    + now rewrite (proj2 (Qleb_true _ 0) H).
  - intros Hp d p H.
    destruct (stop_level_var self) as [|lvl|] eqn:Hl.
    + unfold compute_stop_distance in H. rewrite Hp, Hl in H. discriminate.
    + exists lvl. split; [reflexivity|].
      rewrite (compute_stop_distance_level self lp lvl Hp Hl) in H. cbv zeta in H.
      destruct (Qleb _ 0); [discriminate|].
      destruct (py_div _ lp); [discriminate|].
      simpl in H. injection H as Hd _. now symmetry.
    + unfold compute_stop_distance in H. rewrite Hp, Hl in H. discriminate.
  - intros Hp Hl. unfold compute_stop_distance. rewrite Hp, Hl. reflexivity.
Qed.

Lemma compute_stop_distance_precedence_witness :
  compute_stop_distance (both_form 10 95 Short) 100 = Ok (100 * (10 / 100), 10)
  /\ compute_stop_distance (both_form 0 95 Long) 100
     = raise (ValueError StopPctNotPositive)
  /\ compute_stop_distance (level_form Short 95) 100
     = raise (ValueError StopDistanceInvalid)
  /\ compute_stop_distance (level_form Long 95) 100
     = Ok (level_distance Long 100 95, level_distance Long 100 95 / 100 * 100)
  /\ compute_stop_distance empty_form 100 = raise (ValueError StopInputMissing).
Proof.
  split; [|split; [|split; [|split]]].
  - apply (proj1 (proj1 (compute_stop_distance_precedence (both_form 10 95 Short) 100)
                    10 eq_refl)).
    reflexivity.
  - apply (proj2 (proj1 (compute_stop_distance_precedence (both_form 0 95 Long) 100)
                    0 eq_refl)).
    qorder.
  - apply (proj2 (proj1 (proj2 (proj2 (proj2
             (compute_stop_distance_precedence (level_form Short 95) 100))))
             eq_refl 95 eq_refl ltac:(discriminate))).
    vm_compute. discriminate.
  - apply (proj1 (proj1 (proj2 (proj2 (proj2
             (compute_stop_distance_precedence (level_form Long 95) 100))))
             eq_refl 95 eq_refl ltac:(discriminate))).
    reflexivity.
  - apply (proj2 (proj2 (proj2 (proj2 (proj2
             (compute_stop_distance_precedence empty_form 100))))));
      reflexivity.
Defined.


(** ** The request handler *)

Lemma on_calculate_with_unfold atr self feed :
  on_calculate_with atr self feed =
    (atr_n <- py_parse (atr_n_var self) ;;
     notional <- py_parse (open_notional_var self) ;;
     check negb (Qleb notional 0) else_raise ValueError NotionalNotPositive ;;
     '(atr_value, last_close) <- acquired atr self feed atr_n ;;
     finish self notional atr_value last_close).
Proof. reflexivity. Qed.

Lemma bind_ok {A B} (c : result A) (k : A -> result B) (b : B) :
  bind c k = Ok b -> exists a, c = Ok a /\ k a = Ok b.
Proof.
  destruct c as [e|a]; simpl; intros H; [discriminate|]. now exists a.
Qed.

Lemma finish_ok self notional a lp r :
  finish self notional a lp = Ok r ->
  last_close r = lp /\ atr_value r = a /\ open_notional r = notional
  /\ compute_stop_distance self lp = Ok (stop_abs r, stop_pct r)
  /\ ~ lp == 0
  /\ position_base r = notional / lp
  /\ loss_quote r = position_base r * stop_abs r
  /\ dt_seconds r = bar_to_seconds (bar_var self)
  /\ median_hitting_time_bm a (stop_abs r) (inject_Z (dt_seconds r))
     = Ok (median_seconds r)
  /\ median_hours r = pyfloat_div (median_seconds r) 3600.
Proof.
  unfold finish. intros H.
  apply bind_ok in H. destruct H as [[d p] [Hs H]].
  apply bind_ok in H. destruct H as [pb [Hd H]].
  apply bind_ok in H. destruct H as [ms [Hm H]].
  injection H as <-. simpl.
  unfold py_div in Hd. destruct (Qeq_bool lp 0) eqn:E; [discriminate|].
  injection Hd as <-.
  repeat split; try assumption; try reflexivity.
  intros E0. apply Qeq_bool_iff in E0. congruence.
Qed.

Lemma on_calculate_with_ok atr self feed r :
  on_calculate_with atr self feed = Ok r ->
  exists atr_n notional,
    atr_n_var self = Parsed atr_n
    /\ open_notional_var self = Parsed notional
    /\ 0 < notional
    /\ acquired atr self feed atr_n = Ok (atr_value r, last_close r)
    /\ finish self notional (atr_value r) (last_close r) = Ok r.
Proof.
  rewrite on_calculate_with_unfold. intros H.
  apply bind_ok in H. destruct H as [atr_n [Hn H]].
  apply bind_ok in H. destruct H as [notional [Ho H]].
  destruct (Qleb notional 0) eqn:E; [discriminate|]. simpl in H.
  apply bind_ok in H. destruct H as [[a lp] [Ha H]].
  exists atr_n, notional.
  destruct (finish_ok _ _ _ _ _ H) as (Hlp & Hatr & _).
  subst a lp.
  destruct (atr_n_var self); try discriminate. injection Hn as ->.
  destruct (open_notional_var self); try discriminate. injection Ho as ->.
  apply Qleb_false in E. repeat split; assumption.
Qed.

(** *** Which exceptions each step can raise *)

Lemma bind_raise {A B} (c : result A) (k : A -> result B) (e : exn) :
  bind c k = raise e -> c = raise e \/ exists a, c = Ok a /\ k a = raise e.
Proof.
  destruct c as [e'|a]; simpl; intros H.
  - left. injection H as ->. reflexivity.
  - right. now exists a.
Qed.

Lemma py_collect_raise {A B} (f : A -> result B) (xs : list A) (e : exn) :
  py_collect f xs = raise e -> exists x, In x xs /\ f x = raise e.
Proof.
  induction xs as [|x xs IH]; simpl; intros H; [discriminate|].
  apply bind_raise in H. destruct H as [H | [y [_ H]]].
  - exists x. auto.
  - apply bind_raise in H. destruct H as [H | [ys [_ H]]]; [|discriminate].
    destruct (IH H) as [x' [Hin Hx']]. exists x'. auto.
Qed.

Lemma py_index_raise {A} (l : list A) (i : Z) (e : exn) :
  py_index l i = raise e -> e = IndexError.
Proof.
  unfold py_index. intros H.
  destruct (_ <? 0)%Z; [now injection H|].
  destruct (nth_error _ _); [discriminate | now injection H].
Qed.

Lemma py_div_raise (a b : Q) (e : exn) :
  py_div a b = raise e -> e = ZeroDivisionError.
Proof.
  unfold py_div. destruct (Qeq_bool b 0); intros H; [now injection H | discriminate].
Qed.

Lemma py_parse_raise {A} (x : entry A) (e : exn) :
  py_parse x = raise e -> e = ValueError NotANumber.
Proof. destruct x; simpl; intros H; try discriminate; now injection H. Qed.

Lemma from_feed_raise {A} (x : option A) (e : exn) :
  from_feed x = raise e -> e = FeedError.
Proof. destruct x; simpl; intros H; try discriminate; now injection H. Qed.

(** [median_hitting_time_bm] never raises: the division is guarded. *)
Lemma median_hitting_time_bm_total (sigma b dt : Q) :
  exists m, median_hitting_time_bm sigma b dt = Ok m.
Proof.
  destruct (Qlt_le_dec 0 sigma) as [H|H].
  - eexists. apply (median_hitting_time_bm_pos sigma b dt H).
  - eexists. apply (median_hitting_time_bm_nonpos sigma b dt H).
Qed.

(** Case analysis of a hypothesis [H : c = raise e] along the binds and
    tests of [c], down to the primitive that raised. *)
Ltac raise_cases H :=
  cbv beta in H;
  lazymatch type of H with
  | bind _ _ = raise _ =>
      apply bind_raise in H; destruct H as [H | [? [_ H]]];
      [raise_cases H | raise_cases H]
  | (if ?b then _ else _) = raise _ => destruct b; raise_cases H
  | (match ?x with _ => _ end) = raise _ => destruct x; raise_cases H
  | Ok _ = raise _ => discriminate H
  | raise _ = raise _ => injection H as <-
  | py_index _ _ = raise _ => apply py_index_raise in H; subst
  | py_div _ _ = raise _ => apply py_div_raise in H; subst
  | py_parse _ = raise _ => apply py_parse_raise in H; subst
  | from_feed _ = raise _ => apply from_feed_raise in H; subst
  | _ => idtac
  end.

Lemma compute_stop_distance_raise (self : App) (lp : Q) (e : exn) :
  compute_stop_distance self lp = raise e ->
  e <> ValueError NotionalNotPositive /\ e <> ValueError TooFewCandlesForATR.
Proof.
  unfold compute_stop_distance. intros H.
  raise_cases H; split; discriminate.
Qed.

(** Once the stop resolves and the last price is not zero, the rest of
    the handler succeeds, whatever the volatility figure. *)
Lemma finish_total (self : App) (notional a lp d p : Q) :
  compute_stop_distance self lp = Ok (d, p) ->
  ~ lp == 0 ->
  exists m,
    median_hitting_time_bm a d (inject_Z (bar_to_seconds (bar_var self))) = Ok m
    /\ finish self notional a lp =
       Ok (mkCalc lp a d p notional (notional / lp) (notional / lp * d) notional
             (bar_to_seconds (bar_var self)) m (pyfloat_div m 3600)).
Proof.
  intros Hs Hlp.
  destruct (median_hitting_time_bm_total a d
              (inject_Z (bar_to_seconds (bar_var self)))) as [m Hm].
  exists m. split; [exact Hm|].
  unfold finish. rewrite Hs. simpl.
  rewrite (py_div_ok notional lp Hlp). simpl.
  rewrite Hm. reflexivity.
Qed.

(** *** A custom ATR on the form *)

Lemma acquired_custom atr (self : App) (feed : Feed) (atr_n : Z) (a : Q) :
  custom_atr_var self = Parsed a ->
  acquired atr self feed atr_n
  = (lp <- last_price_custom self feed atr_n ;; Ok (a, lp)).
Proof.
  intros Hc. unfold acquired, last_price_custom. rewrite Hc. simpl.
  destruct (mode_var self).
  - destruct (from_feed _) as [e|cs]; simpl; [reflexivity|].
    destruct (negb _); [|reflexivity].
    destruct (py_index cs (-1)); reflexivity.
  - destruct (from_feed _); reflexivity.
Qed.

Lemma py_index_last {A} (l : list A) (x : A) : py_index (l ++ [x]) (-1) = Ok x.
Proof.
  unfold py_index. rewrite length_app. cbn [length Z.ltb Z.compare].
  replace (-1 + Z.of_nat (length l + 1))%Z with (Z.of_nat (length l)) by lia.
  destruct (Z.of_nat (length l) <? 0)%Z eqn:E; [apply Z.ltb_lt in E; lia|].
  rewrite Nat2Z.id, nth_error_app2, Nat.sub_diag by lia. reflexivity.
Qed.

Lemma py_div_equiv (a1 a2 b1 b2 : Q) :
  a1 == a2 -> b1 == b2 -> result_equiv Qeq (py_div a1 b1) (py_div a2 b2).
Proof.
  intros Ha Hb. unfold py_div. rewrite Hb.
  destruct (Qeq_bool b2 0); simpl; [reflexivity|]. now rewrite Ha, Hb.
Qed.

Lemma on_calculate_with_custom atr (self : App) (feed : Feed) (a : Q) :
  custom_atr_var self = Parsed a ->
  on_calculate_with atr self feed =
    (atr_n <- py_parse (atr_n_var self) ;;
     notional <- py_parse (open_notional_var self) ;;
     check negb (Qleb notional 0) else_raise ValueError NotionalNotPositive ;;
     lp <- last_price_custom self feed atr_n ;;
     finish self notional a lp).
Proof.
  intros Hc. rewrite on_calculate_with_unfold.
  destruct (py_parse (atr_n_var self)) as [e|atr_n]; simpl; [reflexivity|].
  destruct (py_parse (open_notional_var self)) as [e|notional]; simpl; [reflexivity|].
  destruct (negb _); [|reflexivity].
  rewrite (acquired_custom atr self feed atr_n a Hc).
  destruct (last_price_custom self feed atr_n); reflexivity.
Qed.

(** *** A non-positive custom ATR *)

Lemma compute_stop_distance_with_custom_atr (self : App) (e : entry Q) (lp : Q) :
  compute_stop_distance (with_custom_atr self e) lp = compute_stop_distance self lp.
Proof. reflexivity. Qed.

(** C10.  A custom ATR [a <= 0] is taken as it is: a successful result
    reports [a] as the ATR and positive infinity as the median hitting
    time (seconds and hours); and the request succeeds with [a] whenever
    it succeeds with any other custom ATR [a'], so no check anywhere
    depends on the value of the custom ATR. *)
Theorem on_calculate_nonpositive_custom_atr (self : App) (feed : Feed) (a : Q) :
  custom_atr_var self = Parsed a ->
  a <= 0 ->
  (forall r, on_calculate self feed = Ok r ->
     atr_value r = a /\ median_seconds r = PosInf /\ median_hours r = PosInf)
  /\ (forall a' r',
        on_calculate (with_custom_atr self (Parsed a')) feed = Ok r' ->
        exists r, on_calculate self feed = Ok r
                  /\ last_close r = last_close r'
                  /\ stop_abs r = stop_abs r'
                  /\ loss_quote r = loss_quote r'
                  /\ median_seconds r = PosInf).
Proof.
  intros Hc Ha. split.
  - intros r H. unfold on_calculate in H.
    apply on_calculate_with_ok in H.
    destruct H as (atr_n & notional & _ & _ & _ & Hacq & Hf).
    rewrite (acquired_custom _ self feed atr_n a Hc) in Hacq.
    apply bind_ok in Hacq. destruct Hacq as [lp [_ Hacq]]. injection Hacq as Hacq _.
    apply finish_ok in Hf. destruct Hf as (_ & _ & _ & _ & _ & _ & _ & _ & Hm & Hh).
    rewrite <- Hacq in Hm.
    rewrite (median_hitting_time_bm_nonpos a _ _ Ha) in Hm.
    injection Hm as Hm. rewrite <- Hm in Hh.
    repeat split; [now symmetry | now symmetry | exact Hh].
  - intros a' r' H. unfold on_calculate in *.
    apply on_calculate_with_ok in H.
    destruct H as (atr_n & notional & Hn & Ho & Hpos & Hacq & Hf).
    rewrite (acquired_custom _ (with_custom_atr self (Parsed a')) feed atr_n a' eq_refl)
      in Hacq.
    apply bind_ok in Hacq. destruct Hacq as [lp [Hlp Hacq]].
    injection Hacq as _ Hlp'.
    apply finish_ok in Hf.
    destruct Hf as (_ & _ & _ & Hs & Hnz & Hpb & Hl & _).
    rewrite compute_stop_distance_with_custom_atr in Hs.
    destruct (finish_total self notional a _ _ _ Hs Hnz) as [m [Hm Hfin]].
    simpl in Hn, Ho.
    rewrite (on_calculate_with_custom _ self feed a Hc), Hn, Ho. simpl.
    rewrite (proj2 (Qleb_false notional 0) Hpos). simpl.
    change (last_price_custom (with_custom_atr self (Parsed a')) feed atr_n)
      with (last_price_custom self feed atr_n) in Hlp.
    rewrite Hlp, Hlp'. simpl. rewrite Hfin.
    rewrite (median_hitting_time_bm_nonpos a _ _ Ha) in Hm. injection Hm as <-.
    eexists. split; [reflexivity|]. simpl.
    repeat split. now rewrite Hl, Hpb.
Qed.

Lemma on_calculate_nonpositive_custom_atr_witness :
  (exists r, on_calculate (custom_form (-1)) (series_feed short_series) = Ok r
             /\ atr_value r = (-1) /\ median_seconds r = PosInf /\ median_hours r = PosInf)
  /\ (exists r, on_calculate (custom_form 0) (series_feed short_series) = Ok r
                /\ median_seconds r = PosInf).
Proof.
  split.
  - eexists. split; [reflexivity|].
    apply (proj1 (on_calculate_nonpositive_custom_atr (custom_form (-1))
                    (series_feed short_series) (-1) eq_refl ltac:(qorder))).
    reflexivity.
  - destruct (proj2 (on_calculate_nonpositive_custom_atr (custom_form 0)
                       (series_feed short_series) 0 eq_refl ltac:(qorder))
                1 _ eq_refl) as [r [Hr [_ [_ [_ Hm]]]]].
    exists r. split; assumption.
Defined.

(** ** The ATR *)

Section Lists.
Context {A B : Type}.

Lemma py_collect_ok (f : A -> result B) (g : A -> B) (xs : list A) :
  (forall x, In x xs -> f x = Ok (g x)) -> py_collect f xs = Ok (map g xs).
Proof.
  induction xs as [|x xs IH]; intros H; [reflexivity|].
  simpl. rewrite (H x (or_introl eq_refl)). simpl.
  rewrite IH; [reflexivity|]. intros y Hy. apply H. now right.
Qed.

Lemma py_index_nat (l : list A) (i : nat) (d : A) :
  (i < length l)%nat -> py_index l (Z.of_nat i) = Ok (nth i l d).
Proof.
  intros Hi. unfold py_index.
  destruct (Z.of_nat i <? 0)%Z eqn:E; [apply Z.ltb_lt in E; lia|].
  rewrite E, Nat2Z.id.
  rewrite (nth_error_nth' l d Hi). reflexivity.
Qed.

Lemma py_slice_tail (l : list A) (k : nat) :
  (k <= length l)%nat ->
  py_slice l (Z.of_nat (length l) - Z.of_nat k) (Z.of_nat (length l))
  = skipn (length l - k) l.
Proof.
  intros Hk. unfold py_slice, slice_bound.
  destruct (_ - _ <? 0)%Z eqn:E1; [apply Z.ltb_lt in E1; lia|].
  destruct (Z.of_nat (length l) <? 0)%Z eqn:E2; [apply Z.ltb_lt in E2; lia|].
  rewrite Z.min_id, Z.min_l by lia.
  replace (Z.to_nat (Z.of_nat (length l) - Z.of_nat k)) with (length l - k)%nat by lia.
  apply firstn_all2. rewrite length_skipn. lia.
Qed.
End Lists.

Lemma py_range_nat (a b : nat) :
  py_range (Z.of_nat a) (Z.of_nat b) = map Z.of_nat (seq a (b - a)).
Proof.
  unfold py_range.
  replace (Z.to_nat (Z.of_nat b - Z.of_nat a)) with (b - a)%nat by lia.
  assert (G : forall n s, map (fun k => (Z.of_nat a + Z.of_nat k)%Z) (seq s n)
                          = map Z.of_nat (seq (a + s) n)).
  { induction n as [|n IH]; intros s; [reflexivity|].
    simpl. f_equal; [lia|]. rewrite IH. now rewrite Nat.add_succ_r. }
  rewrite G. now rewrite Nat.add_0_r.
Qed.

Lemma py_range_snoc (a b : Z) :
  (a < b)%Z -> py_range a b = py_range a (b - 1) ++ [(b - 1)%Z].
Proof.
  intros H. unfold py_range.
  replace (Z.to_nat (b - a)) with (S (Z.to_nat (b - 1 - a))) by lia.
  rewrite seq_S, map_app. simpl. do 2 f_equal. lia.
Qed.

Lemma py_sum_fold_right (xs : list Q) : py_sum xs == fold_right Qplus 0 xs.
Proof.
  unfold py_sum.
  assert (G : forall acc, fold_left Qplus xs acc == acc + fold_right Qplus 0 xs).
  { induction xs as [|x xs IH]; intros acc; simpl; [ring|]. rewrite IH. ring. }
  rewrite G. ring.
Qed.

Lemma fold_right_Qplus_ext {X} (f g : X -> Q) (xs : list X) :
  (forall x, f x == g x) ->
  fold_right Qplus 0 (map f xs) == fold_right Qplus 0 (map g xs).
Proof.
  intros H. induction xs as [|x xs IH]; simpl; [reflexivity|].
  now rewrite IH, H.
Qed.

Lemma true_range_at_spec (candles : list Candle) (i : nat) :
  true_range_at candles i == spec_true_range candles i.
Proof.
  unfold true_range_at, spec_true_range, compute_true_range, py_max3, py_max.
  cbv zeta. symmetry. apply Q.max_assoc.
Qed.

(** The first loop of [compute_atr]. *)
Lemma compute_atr_trs (candles : list Candle) :
  py_collect (fun i =>
      prev <- py_index candles (i - 1) ;;
      cur <- py_index candles i ;;
      Ok (compute_true_range (close prev) (high cur) (low cur)))
    (py_range 1 (Z.of_nat (length candles)))
  = Ok (map (true_range_at candles) (seq 1 (length candles - 1))).
Proof.
  replace (py_range 1 (Z.of_nat (length candles)))
    with (map Z.of_nat (seq 1 (length candles - 1)))
    by (symmetry; apply (py_range_nat 1)).
  rewrite (py_collect_ok _ (fun i => true_range_at candles (Z.to_nat i))).
  - rewrite map_map. f_equal. apply map_ext. intros i. now rewrite Nat2Z.id.
  - intros x Hx. apply in_map_iff in Hx. destruct Hx as [i [<- Hi]].
    apply in_seq in Hi. cbv beta.
    replace (Z.of_nat i - 1)%Z with (Z.of_nat (i - 1)) by lia.
    rewrite (py_index_nat candles (i - 1) no_candle) by lia.
    rewrite (py_index_nat candles i no_candle) by lia.
    simpl. unfold true_range_at. now rewrite Nat2Z.id.
Qed.

(** The value [compute_atr] returns on a long enough series. *)
Lemma compute_atr_value (candles : list Candle) (period : Z) :
  (1 <= period)%Z ->
  (period + 1 <= Z.of_nat (length candles))%Z ->
  compute_atr candles period
  = Ok (py_sum (map (true_range_at candles)
                  (seq (length candles - Z.to_nat period) (Z.to_nat period)))
        / inject_Z period).
Proof.
  intros Hp Hn. unfold compute_atr.
  destruct (Z.of_nat (length candles) <? period + 1)%Z eqn:E;
    [apply Z.ltb_lt in E; lia|]. simpl negb. cbv iota.
  rewrite compute_atr_trs. simpl bind.
  set (trs := map (true_range_at candles) (seq 1 (length candles - 1))).
  assert (Hlen : length trs = (length candles - 1)%nat)
    by (unfold trs; now rewrite length_map, length_seq).
  rewrite (py_range_snoc (period - 1) (Z.of_nat (length trs))) by lia.
  set (h := fun i : Z =>
              py_div (py_sum (py_slice trs (i - (period - 1)) (i + 1))) (inject_Z period)).
  set (v := py_sum (map (true_range_at candles)
                      (seq (length candles - Z.to_nat period) (Z.to_nat period)))
            / inject_Z period).
  assert (Hh : forall i, h i = Ok (py_sum (py_slice trs (i - (period - 1)) (i + 1))
                                   / inject_Z period)).
  { intros i. unfold h. apply py_div_ok.
    intros E0. unfold Qeq in E0. simpl in E0. lia. }
  assert (Hlast : h (Z.of_nat (length trs) - 1)%Z = Ok v).
  { rewrite Hh. unfold v. do 3 f_equal.
    replace (Z.of_nat (length trs) - 1 - (period - 1))%Z
      with (Z.of_nat (length trs) - Z.of_nat (Z.to_nat period))%Z by lia.
    replace (Z.of_nat (length trs) - 1 + 1)%Z with (Z.of_nat (length trs)) by lia.
    rewrite py_slice_tail by lia.
    unfold trs at 2. rewrite skipn_map, skipn_seq. rewrite Hlen.
    f_equal. f_equal; lia. }
  rewrite (py_collect_ok h (fun i => py_sum (py_slice trs (i - (period - 1)) (i + 1))
                                     / inject_Z period)) by (intros; apply Hh).
  simpl bind. rewrite map_app. simpl map.
  rewrite py_index_last, <- Hh. exact Hlast.
Qed.

(** C1.  On a series of [n >= period + 1] candles with [period >= 1],
    [compute_atr] returns the arithmetic mean of the last [period] True
    Ranges, those of candles [n - period .. n - 1], the True Range of
    candle [i] being
    [max(high_i - low_i, |high_i - close_(i-1)|, |low_i - close_(i-1)|)]. *)
Theorem compute_atr_mean_of_last_true_ranges (candles : list Candle) (period : Z) :
  (1 <= period)%Z ->
  (period + 1 <= Z.of_nat (length candles))%Z ->
  exists v, compute_atr candles period = Ok v
            /\ v == spec_atr candles (Z.to_nat period).
Proof.
  intros Hp Hn. eexists. split; [apply (compute_atr_value candles period Hp Hn)|].
  unfold spec_atr, spec_mean.
  rewrite length_map, length_seq, Z2Nat.id by lia.
  rewrite py_sum_fold_right.
  rewrite (fold_right_Qplus_ext _ _ _ (true_range_at_spec candles)).
  reflexivity.
Qed.

Lemma compute_atr_mean_of_last_true_ranges_witness :
  exists v, compute_atr sample_series 2 = Ok v /\ v == (1 + 3) / 2.
Proof.
  destruct (compute_atr_mean_of_last_true_ranges sample_series 2) as [v [Hv Hq]];
    [lia | simpl; lia |].
  exists v. split; [exact Hv|]. rewrite Hq. reflexivity.
Defined.

(** C6.  For a period [p >= 1], [compute_atr] raises the
    too-few-candles error on every series shorter than [p + 1], and does
    not raise it on any series of length at least [p + 1]. *)
Theorem compute_atr_insufficient_data (candles : list Candle) (period : Z) :
  (1 <= period)%Z ->
  ((Z.of_nat (length candles) < period + 1)%Z ->
     compute_atr candles period = raise (ValueError TooFewCandlesForATR))
  /\ ((period + 1 <= Z.of_nat (length candles))%Z ->
        compute_atr candles period <> raise (ValueError TooFewCandlesForATR)).
Proof.
  intros Hp. split; intros Hn.
  - unfold compute_atr. apply Z.ltb_lt in Hn. now rewrite Hn.
  - rewrite (compute_atr_value candles period Hp Hn). discriminate.
Qed.

Lemma compute_atr_insufficient_data_witness :
  compute_atr sample_series 4 = raise (ValueError TooFewCandlesForATR)
  /\ compute_atr sample_series 3 <> raise (ValueError TooFewCandlesForATR).
Proof.
  split.
  - apply (proj1 (compute_atr_insufficient_data sample_series 4 ltac:(lia))).
    simpl. lia.
  - apply (proj2 (compute_atr_insufficient_data sample_series 3 ltac:(lia))).
    simpl. lia.
Defined.

(** ** Worked examples *)

(** Constant True Range 1 over 14 + 1 hourly bars: ATR 1; a 5 percent
    stop at price 100 is a distance of 5; a notional of 100 is a position
    of 1 and a loss of 5; the median hitting time is
    [0.5 * 25 * 3600 = 45000] seconds, 12.5 hours. *)
Example on_calculate_flat_series :
  result_equiv Calc_equiv
    (on_calculate (pct_form 5) (series_feed flat_series))
    (Ok (mkCalc 100 1 5 5 100 1 5 100 3600 (Fin 45000) (Fin (25 # 2)))).
Proof. vm_compute. repeat split. Qed.

Example compute_atr_flat_series :
  result_equiv Qeq (compute_atr flat_series 14) (Ok 1).
Proof. vm_compute. reflexivity. Qed.

Example median_hitting_time_bm_7200 :
  result_equiv pyfloat_equiv (median_hitting_time_bm 2 4 3600) (Ok (Fin 7200)).
Proof. vm_compute. reflexivity. Qed.

(** Notional 100 at price 50 with a stop distance of 2 (4 percent): a
    position of 2 and a loss of 4. *)
Example on_calculate_sizing :
  result_equiv Calc_equiv
    (on_calculate (sizing_form 100) (one_candle_feed 50))
    (Ok (mkCalc 50 1 2 4 100 2 4 100 3600 (Fin 7200) (Fin 2))).
Proof. vm_compute. repeat split. Qed.

(** A period of zero passes the length test and divides by zero. *)
Example compute_atr_period_zero :
  compute_atr sample_series 0 = raise ZeroDivisionError.
Proof. reflexivity. Qed.

(** With no custom ATR the handler computes the ATR from the series,
    and a one candle series is then too short. *)
Example on_calculate_needs_series :
  on_calculate (pct_form 5) (series_feed short_series)
  = raise (ValueError TooFewCandles).
Proof. reflexivity. Qed.

(** * Further properties of the code *)

(** ** [compute_true_range] *)

(** X1.  The True Range is never negative, is at least each of the
    three moves it is taken over, and is one of them. *)
Theorem compute_true_range_least_upper_bound (prev_close high low : Q) :
  let tr := compute_true_range prev_close high low in
  0 <= tr
  /\ high - low <= tr
  /\ Qabs (high - prev_close) <= tr
  /\ Qabs (low - prev_close) <= tr
  /\ (tr == high - low \/ tr == Qabs (high - prev_close)
      \/ tr == Qabs (low - prev_close)).
Proof.
  unfold compute_true_range, py_max3, py_max. cbv zeta.
  set (a := high - low). set (b := Qabs (high - prev_close)).
  set (c := Qabs (low - prev_close)).
  assert (Hb : b <= Qmax (Qmax a b) c).
  { apply Qle_trans with (Qmax a b); [apply Q.le_max_r | apply Q.le_max_l]. }
  repeat split.
  - apply Qle_trans with b; [apply Qabs_nonneg | exact Hb].
  - apply Qle_trans with (Qmax a b); [apply Q.le_max_l | apply Q.le_max_l].
  - exact Hb.
  - apply Q.le_max_r.
  - destruct (Q.max_spec (Qmax a b) c) as [[_ H]|[_ H]].
    + right; right. exact H.
    + destruct (Q.max_spec a b) as [[_ H']|[_ H']].
      * right; left. now rewrite H, H'.
      * left. now rewrite H, H'.
Qed.

(** ** [compute_atr] for every period *)

Lemma bind_Ok_l {A B} (a : A) (k : A -> result B) : bind (Ok a) k = k a.
Proof. reflexivity. Qed.

(** The second loop of [compute_atr] followed by [atr_values[-1]], for a
    period other than zero: the last window alone counts. *)
Lemma compute_atr_second_loop (trs : list Q) (period : Z) :
  period <> 0%Z ->
  (period - 1 < Z.of_nat (length trs))%Z ->
  (atr_values <- py_collect (fun i =>
       let window := py_slice trs (i - (period - 1)) (i + 1) in
       py_div (py_sum window) (inject_Z period))
     (py_range (period - 1) (Z.of_nat (length trs))) ;;
   py_index atr_values (-1))
  = Ok (py_sum (py_slice trs (Z.of_nat (length trs) - period) (Z.of_nat (length trs)))
        / inject_Z period).
Proof.
  intros Hp Hm.
  rewrite (py_range_snoc (period - 1) (Z.of_nat (length trs)) Hm).
  rewrite (py_collect_ok _ (fun i => py_sum (py_slice trs (i - (period - 1)) (i + 1))
                                     / inject_Z period)).
  - simpl bind. rewrite map_app. simpl map. rewrite py_index_last.
    replace (Z.of_nat (length trs) - 1 - (period - 1))%Z
      with (Z.of_nat (length trs) - period)%Z by lia.
    replace (Z.of_nat (length trs) - 1 + 1)%Z with (Z.of_nat (length trs)) by lia.
    reflexivity.
  - intros i _. cbv zeta. apply py_div_ok.
    intros E0. unfold Qeq in E0. simpl in E0. lia.
Qed.

Lemma compute_atr_nonzero_period (candles : list Candle) (period : Z) :
  period <> 0%Z ->
  (period + 1 <= Z.of_nat (length candles))%Z ->
  compute_atr candles period
  = Ok (py_sum (py_slice (true_ranges candles)
                  (Z.of_nat (length (true_ranges candles)) - period)
                  (Z.of_nat (length (true_ranges candles))))
        / inject_Z period).
Proof.
  intros Hp Hn. unfold compute_atr.
  destruct (Z.of_nat (length candles) <? period + 1)%Z eqn:E;
    [apply Z.ltb_lt in E; lia|]. simpl negb. cbv iota.
  rewrite compute_atr_trs, bind_Ok_l. fold (true_ranges candles).
  apply compute_atr_second_loop; [exact Hp|].
  unfold true_ranges. rewrite length_map, length_seq. lia.
Qed.

Lemma py_slice_beyond {A} (l : list A) (k : Z) :
  (0 < k)%Z ->
  py_slice l (Z.of_nat (length l) + k) (Z.of_nat (length l)) = [].
Proof.
  intros Hk. unfold py_slice, slice_bound.
  destruct (_ + k <? 0)%Z eqn:E1; [apply Z.ltb_lt in E1; lia|].
  destruct (Z.of_nat (length l) <? 0)%Z eqn:E2; [apply Z.ltb_lt in E2; lia|].
  rewrite Z.min_id, Z.min_r by lia. now rewrite Z.sub_diag.
Qed.

Lemma compute_atr_zero_period (candles : list Candle) :
  (1 <= length candles)%nat ->
  compute_atr candles 0 = raise ZeroDivisionError.
Proof.
  intros Hn. unfold compute_atr.
  destruct (Z.of_nat (length candles) <? 0 + 1)%Z eqn:E;
    [apply Z.ltb_lt in E; lia|]. simpl negb. cbv iota.
  rewrite compute_atr_trs, bind_Ok_l.
  set (trs := map _ _). unfold py_range.
  replace (Z.to_nat (Z.of_nat (length trs) - (0 - 1))) with (S (length trs)) by lia.
  cbn [seq map py_collect]. reflexivity.
Qed.

Lemma compute_atr_negative_period (candles : list Candle) (period : Z) :
  (period < 0)%Z ->
  compute_atr candles period = Ok (0 / inject_Z period).
Proof.
  intros Hp. rewrite compute_atr_nonzero_period by lia.
  replace (Z.of_nat (length (true_ranges candles)) - period)%Z
    with (Z.of_nat (length (true_ranges candles)) + - period)%Z by lia.
  rewrite py_slice_beyond by lia. reflexivity.
Qed.

(** X2.  [compute_atr] does not reject a period below one.  With period
    zero and at least one candle the division by the period raises
    [ZeroDivisionError]; with a negative period the length test always
    passes and the function returns a value equal to zero. *)
Theorem compute_atr_degenerate_period (candles : list Candle) (period : Z) :
  ((1 <= length candles)%nat -> period = 0%Z ->
     compute_atr candles period = raise ZeroDivisionError)
  /\ ((period < 0)%Z ->
        exists v, compute_atr candles period = Ok v /\ v == 0).
Proof.
  split.
  - intros Hn ->. now apply compute_atr_zero_period.
  - intros Hp. exists (0 / inject_Z period).
    split; [now apply compute_atr_negative_period|]. unfold Qdiv. ring.
Qed.

Lemma compute_atr_degenerate_period_witness :
  compute_atr sample_series 0 = raise ZeroDivisionError
  /\ (exists v, compute_atr [] (-3) = Ok v /\ v == 0).
Proof.
  split.
  - apply (proj1 (compute_atr_degenerate_period sample_series 0)); [simpl; lia | reflexivity].
  - apply (proj2 (compute_atr_degenerate_period [] (-3))). lia.
Defined.

(** X3.  The outcome of [compute_atr] is decided by the length and the
    period alone: too few candles is the [ValueError], and only that; a
    zero period is [ZeroDivisionError], and only that; everything else
    returns.  No index ever leaves its list. *)
Theorem compute_atr_outcome (candles : list Candle) (period : Z) :
  (compute_atr candles period = raise (ValueError TooFewCandlesForATR)
     <-> (Z.of_nat (length candles) < period + 1)%Z)
  /\ (compute_atr candles period = raise ZeroDivisionError
        <-> (period = 0 /\ 1 <= Z.of_nat (length candles))%Z)
  /\ ((exists v, compute_atr candles period = Ok v)
        <-> (period <> 0 /\ period + 1 <= Z.of_nat (length candles))%Z)
  /\ compute_atr candles period <> raise IndexError.
Proof.
  destruct (Z.ltb_spec (Z.of_nat (length candles)) (period + 1)) as [Hlt|Hge].
  - assert (H : compute_atr candles period = raise (ValueError TooFewCandlesForATR)).
    { unfold compute_atr. apply Z.ltb_lt in Hlt. now rewrite Hlt. }
    rewrite H. split; [|split; [|split]].
    + split; [intros _; exact Hlt | reflexivity].
    + split; [discriminate | intros [Hp Hn]; lia].
    + split; [intros [v Hv]; discriminate | intros [_ Hn]; lia].
    + discriminate.
  - destruct (Z.eq_dec period 0) as [->|Hnz].
    + rewrite compute_atr_zero_period by lia. split; [|split; [|split]].
      * split; [discriminate | intros Hn; lia].
      * split; [intros _; split; [reflexivity | lia] | reflexivity].
      * split; [intros [v Hv]; discriminate | intros [Hp _]; lia].
      * discriminate.
    + rewrite (compute_atr_nonzero_period candles period Hnz Hge).
      split; [|split; [|split]].
      * split; [discriminate | intros Hn; lia].
      * split; [discriminate | intros [Hp _]; lia].
      * split; [intros _; split; assumption | intros _; eexists; reflexivity].
      * discriminate.
Qed.

(** ** The ATR as a mean *)

Lemma seq_add_map (k a n : nat) :
  seq (k + a) n = map (fun i => (k + i)%nat) (seq a n).
Proof.
  revert a. induction n as [|n IH]; intros a; [reflexivity|].
  simpl. f_equal. rewrite <- IH. f_equal. lia.
Qed.

Lemma true_range_at_app (old recent : list Candle) (j : nat) :
  (1 <= j)%nat ->
  true_range_at (old ++ recent) (length old + j) = true_range_at recent j.
Proof.
  intros Hj. unfold true_range_at.
  replace (length old + j - 1)%nat with (length old + (j - 1))%nat by lia.
  now rewrite !app_nth2_plus.
Qed.

(** X4.  Only the last [period + 1] candles count: candles placed in
    front of a series that is already long enough leave the ATR
    unchanged. *)
Theorem compute_atr_ignores_older_candles (old recent : list Candle) (period : Z) :
  (1 <= period)%Z ->
  (period + 1 <= Z.of_nat (length recent))%Z ->
  compute_atr (old ++ recent) period = compute_atr recent period.
Proof.
  intros Hp Hn.
  rewrite (compute_atr_value recent period Hp Hn).
  rewrite (compute_atr_value (old ++ recent) period Hp)
    by (rewrite length_app; lia).
  do 3 f_equal. rewrite length_app.
  replace (length old + length recent - Z.to_nat period)%nat
    with (length old + (length recent - Z.to_nat period))%nat by lia.
  rewrite seq_add_map, map_map. apply map_ext_in.
  intros j Hj. apply in_seq in Hj. apply true_range_at_app. lia.
Qed.

Lemma compute_atr_ignores_older_candles_witness :
  compute_atr (long_series ++ sample_series) 3 = compute_atr sample_series 3.
Proof.
  apply (compute_atr_ignores_older_candles long_series sample_series 3);
    [lia | simpl; lia].
Defined.

Lemma inject_Z_of_nat_succ (n : nat) :
  inject_Z (Z.of_nat (S n)) == 1 + inject_Z (Z.of_nat n).
Proof. rewrite Nat2Z.inj_succ, <- Z.add_1_l, inject_Z_plus. reflexivity. Qed.

Lemma fold_right_Qplus_lower (xs : list Q) (lo : Q) :
  (forall x, In x xs -> lo <= x) ->
  inject_Z (Z.of_nat (length xs)) * lo <= fold_right Qplus 0 xs.
Proof.
  induction xs as [|x xs IH]; intros H.
  - simpl. rewrite Qmult_0_l. apply Qle_refl.
  - cbn [length fold_right]. rewrite inject_Z_of_nat_succ.
    setoid_replace ((1 + inject_Z (Z.of_nat (length xs))) * lo)
      with (lo + inject_Z (Z.of_nat (length xs)) * lo) by ring.
    apply Qplus_le_compat; [apply H; now left|].
    apply IH. intros y Hy. apply H. now right.
Qed.

Lemma fold_right_Qplus_upper (xs : list Q) (hi : Q) :
  (forall x, In x xs -> x <= hi) ->
  fold_right Qplus 0 xs <= inject_Z (Z.of_nat (length xs)) * hi.
Proof.
  induction xs as [|x xs IH]; intros H.
  - simpl. rewrite Qmult_0_l. apply Qle_refl.
  - cbn [length fold_right]. rewrite inject_Z_of_nat_succ.
    setoid_replace ((1 + inject_Z (Z.of_nat (length xs))) * hi)
      with (hi + inject_Z (Z.of_nat (length xs)) * hi) by ring.
    apply Qplus_le_compat; [apply H; now left|].
    apply IH. intros y Hy. apply H. now right.
Qed.

Lemma length_pos_inject (A : Type) (xs : list A) :
  xs <> [] -> 0 < inject_Z (Z.of_nat (length xs)).
Proof. destruct xs; [contradiction|]. intros _. unfold Qlt. simpl. lia. Qed.

Lemma spec_mean_lower (xs : list Q) (lo : Q) :
  xs <> [] -> (forall x, In x xs -> lo <= x) -> lo <= spec_mean xs.
Proof.
  intros Hne H. unfold spec_mean.
  apply Qle_shift_div_l; [now apply length_pos_inject|].
  rewrite Qmult_comm. now apply fold_right_Qplus_lower.
Qed.

Lemma spec_mean_upper (xs : list Q) (hi : Q) :
  xs <> [] -> (forall x, In x xs -> x <= hi) -> spec_mean xs <= hi.
Proof.
  intros Hne H. unfold spec_mean.
  apply Qle_shift_div_r; [now apply length_pos_inject|].
  rewrite Qmult_comm. now apply fold_right_Qplus_upper.
Qed.

Lemma spec_true_range_nonneg (candles : list Candle) (i : nat) :
  0 <= spec_true_range candles i.
Proof.
  unfold spec_true_range. cbv zeta.
  eapply Qle_trans; [apply Qabs_nonneg|].
  eapply Qle_trans; [apply Q.le_max_l | apply Q.le_max_r].
Qed.

(** The value of [compute_atr] and the written mean, side by side. *)
Lemma compute_atr_spec (candles : list Candle) (period : Z) :
  (1 <= period)%Z ->
  (period + 1 <= Z.of_nat (length candles))%Z ->
  exists v, compute_atr candles period = Ok v
            /\ v == spec_atr candles (Z.to_nat period).
Proof.
  intros Hp Hn. eexists. split; [apply (compute_atr_value candles period Hp Hn)|].
  unfold spec_atr, spec_mean.
  rewrite length_map, length_seq, Z2Nat.id by lia.
  rewrite py_sum_fold_right.
  rewrite (fold_right_Qplus_ext _ _ _ (true_range_at_spec candles)).
  reflexivity.
Qed.

(** X5.  For a period of at least one on a long enough series the ATR
    is never negative, and it lies between any two bounds that hold for
    the True Ranges of its window; so a constant True Range is its own
    ATR. *)
Theorem compute_atr_between_true_ranges (candles : list Candle) (period : Z) :
  (1 <= period)%Z ->
  (period + 1 <= Z.of_nat (length candles))%Z ->
  exists v, compute_atr candles period = Ok v
    /\ 0 <= v
    /\ forall lo hi,
         (forall i, (length candles - Z.to_nat period <= i < length candles)%nat ->
                    lo <= spec_true_range candles i /\ spec_true_range candles i <= hi) ->
         lo <= v /\ v <= hi.
Proof.
  intros Hp Hn.
  destruct (compute_atr_spec candles period Hp Hn) as [v [Hv Hq]].
  exists v. split; [exact Hv|].
  assert (Hne : map (spec_true_range candles)
                  (seq (length candles - Z.to_nat period) (Z.to_nat period)) <> []).
  { intros E. apply (f_equal (@length Q)) in E.
    rewrite length_map, length_seq in E. simpl in E. lia. }
  assert (Hin : forall x, In x (map (spec_true_range candles)
                (seq (length candles - Z.to_nat period) (Z.to_nat period))) ->
            exists i, (length candles - Z.to_nat period <= i < length candles)%nat
                      /\ x = spec_true_range candles i).
  { intros x Hx. apply in_map_iff in Hx. destruct Hx as [i [<- Hi]].
    apply in_seq in Hi. exists i. split; [lia | reflexivity]. }
  split.
  - rewrite Hq. apply spec_mean_lower; [exact Hne|].
    intros x Hx. destruct (Hin x Hx) as [i [_ ->]]. apply spec_true_range_nonneg.
  - intros lo hi H. rewrite Hq. split.
    + apply spec_mean_lower; [exact Hne|].
      intros x Hx. destruct (Hin x Hx) as [i [Hi ->]]. now apply H.
    + apply spec_mean_upper; [exact Hne|].
      intros x Hx. destruct (Hin x Hx) as [i [Hi ->]]. now apply H.
Qed.

Lemma compute_atr_between_true_ranges_witness :
  exists v, compute_atr flat_series 14 = Ok v /\ 0 <= v /\ 1 <= v /\ v <= 1.
Proof.
  destruct (compute_atr_between_true_ranges flat_series 14) as [v [Hv [H0 Hb]]];
    [lia | simpl; lia |].
  exists v. split; [exact Hv|]. split; [exact H0|].
  apply Hb. intros i Hi. simpl in Hi.
  assert (E : spec_true_range flat_series i == 1).
  { do 15 (destruct i as [|i]; [try lia; vm_compute; reflexivity|]). lia. }
  rewrite E. split; apply Qle_refl.
Defined.

(** ** The ATR under a change of origin or of unit *)

Lemma fold_right_Qplus_ext_in {X} (f g : X -> Q) (xs : list X) :
  (forall x, In x xs -> f x == g x) ->
  fold_right Qplus 0 (map f xs) == fold_right Qplus 0 (map g xs).
Proof.
  intros H. induction xs as [|x xs IH]; simpl; [reflexivity|].
  rewrite (H x (or_introl eq_refl)).
  rewrite IH; [reflexivity|]. intros y Hy. apply H. now right.
Qed.

Lemma fold_right_Qplus_scale {X} (k : Q) (f : X -> Q) (xs : list X) :
  fold_right Qplus 0 (map (fun x => k * f x) xs)
  == k * fold_right Qplus 0 (map f xs).
Proof.
  induction xs as [|x xs IH]; simpl; [ring|]. rewrite IH. ring.
Qed.

Lemma nth_map_candle (f : Candle -> Candle) (candles : list Candle) (i : nat) :
  (i < length candles)%nat ->
  nth i (map f candles) no_candle = f (nth i candles no_candle).
Proof.
  intros Hi. rewrite (nth_indep _ no_candle (f no_candle))
    by (now rewrite length_map).
  apply map_nth.
Qed.

Lemma compute_true_range_shift (t prev_close high low : Q) :
  compute_true_range (prev_close + t) (high + t) (low + t)
  == compute_true_range prev_close high low.
Proof.
  unfold compute_true_range, py_max3, py_max.
  setoid_replace (high + t - (low + t)) with (high - low) by ring.
  setoid_replace (high + t - (prev_close + t)) with (high - prev_close) by ring.
  setoid_replace (low + t - (prev_close + t)) with (low - prev_close) by ring.
  reflexivity.
Qed.

Lemma Qmax_scale (k a b : Q) : 0 <= k -> Qmax (k * a) (k * b) == k * Qmax a b.
Proof.
  intros Hk. destruct (Q.max_spec a b) as [[Hlt E]|[Hle E]]; rewrite E.
  - apply Q.max_r. rewrite (Qmult_comm k a), (Qmult_comm k b).
    apply Qmult_le_compat_r; [now apply Qlt_le_weak | exact Hk].
  - apply Q.max_l. rewrite (Qmult_comm k a), (Qmult_comm k b).
    now apply Qmult_le_compat_r.
Qed.

Lemma Qabs_scale (k a b : Q) : 0 <= k -> Qabs (k * a - k * b) == k * Qabs (a - b).
Proof.
  intros Hk. setoid_replace (k * a - k * b) with (k * (a - b)) by ring.
  now rewrite Qabs_Qmult, (Qabs_pos k Hk).
Qed.

Lemma compute_true_range_scale (k prev_close high low : Q) :
  0 <= k ->
  compute_true_range (k * prev_close) (k * high) (k * low)
  == k * compute_true_range prev_close high low.
Proof.
  intros Hk. unfold compute_true_range, py_max3, py_max.
  rewrite !(Qabs_scale k) by exact Hk.
  setoid_replace (k * high - k * low) with (k * (high - low)) by ring.
  now rewrite !Qmax_scale by exact Hk.
Qed.

Lemma true_range_at_shift (t : Q) (candles : list Candle) (i : nat) :
  (1 <= i < length candles)%nat ->
  true_range_at (map (shift_candle t) candles) i == true_range_at candles i.
Proof.
  intros Hi. unfold true_range_at.
  rewrite !nth_map_candle by lia. simpl. apply compute_true_range_shift.
Qed.

Lemma true_range_at_scale (k : Q) (candles : list Candle) (i : nat) :
  0 <= k ->
  (1 <= i < length candles)%nat ->
  true_range_at (map (scale_candle k) candles) i == k * true_range_at candles i.
Proof.
  intros Hk Hi. unfold true_range_at.
  rewrite !nth_map_candle by lia. simpl. now apply compute_true_range_scale.
Qed.

(** X6.  Moving every price of the series by the same amount [t] leaves
    the ATR unchanged. *)
Theorem compute_atr_shift_invariant (t : Q) (candles : list Candle) (period : Z) :
  (1 <= period)%Z ->
  (period + 1 <= Z.of_nat (length candles))%Z ->
  exists v v',
    compute_atr candles period = Ok v
    /\ compute_atr (map (shift_candle t) candles) period = Ok v'
    /\ v' == v.
Proof.
  intros Hp Hn. do 2 eexists.
  split; [apply (compute_atr_value candles period Hp Hn)|].
  split; [apply compute_atr_value; [exact Hp | now rewrite length_map]|].
  rewrite length_map, !py_sum_fold_right.
  rewrite (fold_right_Qplus_ext_in (true_range_at (map (shift_candle t) candles))
             (true_range_at candles)); [reflexivity|].
  intros i Hi. apply in_seq in Hi. apply true_range_at_shift. lia.
Qed.

Lemma compute_atr_shift_invariant_witness :
  exists v v',
    compute_atr sample_series 2 = Ok v
    /\ compute_atr (map (shift_candle 1000) sample_series) 2 = Ok v'
    /\ v' == v.
Proof.
  apply (compute_atr_shift_invariant 1000 sample_series 2); [lia | simpl; lia].
Defined.

(** X7.  Multiplying every price of the series by the same [k >= 0], a
    change of price unit, multiplies the ATR by [k]. *)
Theorem compute_atr_scale (k : Q) (candles : list Candle) (period : Z) :
  0 <= k ->
  (1 <= period)%Z ->
  (period + 1 <= Z.of_nat (length candles))%Z ->
  exists v v',
    compute_atr candles period = Ok v
    /\ compute_atr (map (scale_candle k) candles) period = Ok v'
    /\ v' == k * v.
Proof.
  intros Hk Hp Hn. do 2 eexists.
  split; [apply (compute_atr_value candles period Hp Hn)|].
  split; [apply compute_atr_value; [exact Hp | now rewrite length_map]|].
  rewrite length_map, !py_sum_fold_right.
  rewrite (fold_right_Qplus_ext_in (true_range_at (map (scale_candle k) candles))
             (fun i => k * true_range_at candles i)).
  - rewrite fold_right_Qplus_scale. unfold Qdiv. ring.
  - intros i Hi. apply in_seq in Hi. apply true_range_at_scale; [exact Hk | lia].
Qed.

Lemma compute_atr_scale_witness :
  exists v v',
    compute_atr sample_series 2 = Ok v
    /\ compute_atr (map (scale_candle 100) sample_series) 2 = Ok v'
    /\ v' == 100 * v.
Proof.
  apply (compute_atr_scale 100 sample_series 2); [qorder | lia | simpl; lia].
Defined.

(** ** [App.compute_stop_distance] *)



(** X11.  A short stop is the mirror image of a long stop: a long with
    its stop at [lvl] and a short with its stop at [2 * last - lvl], the
    same distance on the other side of the last price, have the same
    outcome. *)
Theorem compute_stop_distance_mirror (long short : App) (lp lvl lvl' : Q) :
  stop_pct_var long = Blank -> stop_level_var long = Parsed lvl -> side_var long = Long ->
  stop_pct_var short = Blank -> stop_level_var short = Parsed lvl' -> side_var short = Short ->
  lvl' == lp + lp - lvl ->
  result_equiv pair_equiv (compute_stop_distance long lp) (compute_stop_distance short lp).
Proof.
  intros Hp Hl Hs Hp' Hl' Hs' E.
  rewrite (compute_stop_distance_level long lp lvl Hp Hl).
  rewrite (compute_stop_distance_level short lp lvl' Hp' Hl').
  rewrite Hs, Hs'. cbv zeta. unfold level_distance.
  assert (Hd : Qmax 0 (lp - lvl) == Qmax 0 (lvl' - lp)).
  { rewrite E. setoid_replace (lp + lp - lvl - lp) with (lp - lvl) by ring. reflexivity. }
  unfold Qleb. rewrite Hd.
  destruct (Qle_bool _ 0); [reflexivity|].
  pose proof (py_div_equiv _ _ lp lp Hd (Qeq_refl lp)) as Hq.
  destruct (py_div _ lp), (py_div _ lp); simpl in *; try contradiction; [exact Hq|].
  split; simpl; [exact Hd | now rewrite Hq].
Qed.

Lemma compute_stop_distance_mirror_witness :
  result_equiv pair_equiv
    (compute_stop_distance (level_form Long 95) 100)
    (compute_stop_distance (level_form Short 105) 100).
Proof.
  apply (compute_stop_distance_mirror (level_form Long 95) (level_form Short 105)
           100 95 105); reflexivity.
Defined.

(** ** [App.on_calculate] *)

Lemma on_calculate_ok (self : App) (feed : Feed) (r : Calc) :
  on_calculate self feed = Ok r ->
  exists atr_n notional,
    atr_n_var self = Parsed atr_n
    /\ open_notional_var self = Parsed notional
    /\ 0 < notional
    /\ acquired compute_atr self feed atr_n = Ok (atr_value r, last_close r)
    /\ open_notional r = notional
    /\ compute_stop_distance self (last_close r) = Ok (stop_abs r, stop_pct r)
    /\ ~ last_close r == 0
    /\ position_base r = notional / last_close r
    /\ loss_quote r = position_base r * stop_abs r
    /\ dt_seconds r = bar_to_seconds (bar_var self)
    /\ median_hitting_time_bm (atr_value r) (stop_abs r) (inject_Z (dt_seconds r))
       = Ok (median_seconds r)
    /\ median_hours r = pyfloat_div (median_seconds r) 3600.
Proof.
  intros H. apply on_calculate_with_ok in H.
  destruct H as (atr_n & notional & Hn & Ho & Hpos & Ha & Hf).
  apply finish_ok in Hf.
  destruct Hf as (_ & _ & Hon & Hs & Hnz & Hpb & Hl & Hdt & Hm & Hh).
  exists atr_n, notional. repeat split; assumption.
Qed.





Lemma bar_to_seconds_bounds (bar : string) :
  (60 <= bar_to_seconds bar <= 86400)%Z.
Proof.
  unfold bar_to_seconds.
  repeat match goal with |- context [String.eqb ?a ?b] => destruct (String.eqb a b) end;
    lia.
Qed.

(** X15.  Without a custom ATR the DEX mode cannot succeed.  The price
    is fetched all the same: a failing price call is what is reported,
    otherwise the request for a custom ATR. *)
Theorem on_calculate_dex_needs_custom_atr (self : App) (feed : Feed) :
  mode_var self = DEX ->
  custom_atr_var self = Blank ->
  (forall r, on_calculate self feed <> Ok r)
  /\ (forall atr_n notional,
        atr_n_var self = Parsed atr_n ->
        open_notional_var self = Parsed notional ->
        0 < notional ->
        on_calculate self feed
        = match fetch_dex_price_by_token feed with
          | Some _ => raise (ValueError DexNeedsCustomATR)
          | None => raise FeedError
          end).
Proof.
  intros Hmode Hc. split.
  - intros r H. apply on_calculate_ok in H.
    destruct H as (atr_n & notional & _ & _ & _ & Ha & _).
    unfold acquired in Ha. rewrite Hmode, Hc in Ha.
    destruct (fetch_dex_price_by_token feed); discriminate.
  - intros atr_n notional Hn Ho Hpos.
    unfold on_calculate. rewrite on_calculate_with_unfold, Hn, Ho. simpl.
    rewrite (proj2 (Qleb_false notional 0) Hpos). simpl.
    unfold acquired. rewrite Hmode, Hc.
    destruct (fetch_dex_price_by_token feed); reflexivity.
Qed.

Lemma on_calculate_dex_needs_custom_atr_witness :
  on_calculate (dex_form Blank) (mkFeed (fun _ => None) (Some 100))
  = raise (ValueError DexNeedsCustomATR).
Proof.
  apply (proj2 (on_calculate_dex_needs_custom_atr (dex_form Blank)
                  (mkFeed (fun _ => None) (Some 100)) eq_refl eq_refl) 14%Z 100);
    reflexivity.
Defined.

Lemma py_index_last_inv {A} (l : list A) (x : A) :
  py_index l (-1) = Ok x -> exists l', l = l' ++ [x].
Proof.
  induction l as [|a l0 _] using rev_ind; [discriminate|].
  rewrite py_index_last. intros H. injection H as <-. now exists l0.
Qed.

Lemma py_index_last_raise {A} (l : list A) (e : exn) :
  py_index l (-1) = raise e -> l = [] /\ e = IndexError.
Proof.
  induction l as [|a l0 _] using rev_ind.
  - intros H. split; [reflexivity|]. now injection H.
  - rewrite py_index_last. discriminate.
Qed.

Lemma from_feed_ok {A} (x : option A) (a : A) : from_feed x = Ok a -> x = Some a.
Proof. destruct x; simpl; intros H; [now injection H as -> | discriminate]. Qed.

(** The historic path of [acquired], read backwards from a success. *)
Lemma acquired_historic_ok (self : App) (feed : Feed) (n : Z) (a lp : Q) :
  mode_var self = CEX ->
  custom_atr_var self = Blank ->
  acquired compute_atr self feed n = Ok (a, lp) ->
  exists cs c,
    fetch_okx_candles feed (Z.max (n + 50) 100) = Some (cs ++ [c])
    /\ (n + 1 <= Z.of_nat (length (cs ++ [c])))%Z
    /\ compute_atr (cs ++ [c]) n = Ok a
    /\ lp = close c.
Proof.
  intros Hmode Hc H. unfold acquired in H. rewrite Hmode, Hc in H. simpl in H.
  apply bind_ok in H. destruct H as [candles [Hf H]].
  apply from_feed_ok in Hf.
  destruct (Z.of_nat (length candles) <? n + 1)%Z eqn:E; [discriminate|].
  apply Z.ltb_ge in E. simpl in H.
  apply bind_ok in H. destruct H as [v [Hv H]].
  apply bind_ok in H. destruct H as [last [Hlast H]].
  apply py_index_last_inv in Hlast. destruct Hlast as [cs ->].
  injection H as <- <-. exists cs, last. repeat split; assumption.
Qed.

(** X16.  A success without a custom ATR, in CEX mode, comes from the
    series fetched with limit [max(atr_n + 50, 100)]: the last price is
    its final close and the ATR is [compute_atr] of it.  The period is
    not checked for sign: zero cannot succeed, a period of one or more
    gives the mean of the last True Ranges, and a negative period gives
    an ATR of zero and with it an infinite hitting time. *)
Theorem on_calculate_historic_atr (self : App) (feed : Feed) (r : Calc) (n : Z) :
  on_calculate self feed = Ok r ->
  mode_var self = CEX ->
  custom_atr_var self = Blank ->
  atr_n_var self = Parsed n ->
  exists cs c,
    fetch_okx_candles feed (Z.max (n + 50) 100) = Some (cs ++ [c])
    /\ last_close r = close c
    /\ compute_atr (cs ++ [c]) n = Ok (atr_value r)
    /\ n <> 0%Z
    /\ ((1 <= n)%Z -> atr_value r == spec_atr (cs ++ [c]) (Z.to_nat n))
    /\ ((n < 0)%Z -> atr_value r == 0 /\ median_seconds r = PosInf).
Proof.
  intros H Hmode Hc Hn. apply on_calculate_ok in H.
  destruct H as (n' & notional & Hn' & _ & _ & Ha & _ & _ & _ & _ & _ & _ & Hm & _).
  rewrite Hn in Hn'. injection Hn' as <-.
  destruct (acquired_historic_ok self feed n _ _ Hmode Hc Ha) as (cs & c & Hf & Hlen & Hv & Hlp).
  exists cs, c. repeat split; try assumption.
  - intros ->. rewrite compute_atr_zero_period in Hv; [discriminate|].
    rewrite length_app. simpl. lia.
  - intros Hpos.
    destruct (compute_atr_spec (cs ++ [c]) n Hpos Hlen) as [v [Hv' Hq]].
    rewrite Hv in Hv'. injection Hv' as ->. exact Hq.
  - rewrite (compute_atr_negative_period _ n H) in Hv. injection Hv as <-.
    unfold Qdiv. ring.
  - rewrite (compute_atr_negative_period _ n H) in Hv. injection Hv as Hv.
    rewrite <- Hv in Hm.
    rewrite median_hitting_time_bm_nonpos in Hm; [now injection Hm|].
    unfold Qdiv. rewrite Qmult_0_l. apply Qle_refl.
Qed.

Lemma on_calculate_historic_atr_witness :
  (exists r, on_calculate (period_form 2) (series_feed long_series) = Ok r
             /\ atr_value r == spec_atr long_series 2)
  /\ (exists r, on_calculate (period_form (-1)) (series_feed long_series) = Ok r
                /\ atr_value r == 0 /\ median_seconds r = PosInf).
Proof.
  split.
  - eexists. split; [reflexivity|].
    destruct (on_calculate_historic_atr (period_form 2) (series_feed long_series) _ 2
                eq_refl eq_refl eq_refl eq_refl)
      as (cs & c & Hf & _ & _ & _ & Hpos & _).
    injection Hf as Hf. rewrite Hf. apply Hpos. lia.
  - eexists. split; [reflexivity|].
    destruct (on_calculate_historic_atr (period_form (-1)) (series_feed long_series) _ (-1)
                eq_refl eq_refl eq_refl eq_refl)
      as (cs & c & _ & _ & _ & _ & _ & Hneg).
    apply Hneg. lia.
Defined.

Lemma compute_atr_raise_guarded (candles : list Candle) (n : Z) (e : exn) :
  (n + 1 <= Z.of_nat (length candles))%Z ->
  compute_atr candles n = raise e ->
  e = ZeroDivisionError.
Proof.
  intros Hlen H.
  destruct (Z.eq_dec n 0) as [->|Hnz].
  - rewrite compute_atr_zero_period in H by lia. now injection H.
  - rewrite (compute_atr_nonzero_period candles n Hnz Hlen) in H. discriminate.
Qed.

Lemma compute_stop_distance_raise_kind (self : App) (lp : Q) (e : exn) :
  compute_stop_distance self lp = raise e -> e <> IndexError.
Proof.
  unfold compute_stop_distance. intros H. raise_cases H; discriminate.
Qed.

Lemma finish_raise_kind (self : App) (notional a lp : Q) (e : exn) :
  finish self notional a lp = raise e ->
  e <> IndexError /\ e <> ValueError TooFewCandlesForATR.
Proof.
  unfold finish. intros H.
  apply bind_raise in H. destruct H as [H | [[d p] [_ H]]].
  - split; [now apply compute_stop_distance_raise_kind in H
           | now apply compute_stop_distance_raise in H].
  - apply bind_raise in H. destruct H as [H | [pb [_ H]]].
    + apply py_div_raise in H. subst. split; discriminate.
    + apply bind_raise in H. destruct H as [H | [ms [_ H]]]; [|discriminate].
      destruct (median_hitting_time_bm_total a d
                  (inject_Z (bar_to_seconds (bar_var self)))) as [m Hm].
      rewrite Hm in H. discriminate.
Qed.

(** Where [acquired] can raise [IndexError] or the length error of
    [compute_atr]: only the former, and only on an empty series taken
    with a negative period. *)
Lemma acquired_raise_index (self : App) (feed : Feed) (n : Z) (e : exn) :
  acquired compute_atr self feed n = raise e ->
  e = IndexError \/ e = ValueError TooFewCandlesForATR ->
  e = IndexError /\ mode_var self = CEX /\ custom_atr_var self = Blank
  /\ (n < 0)%Z /\ fetch_okx_candles feed (Z.max (n + 50) 100) = Some [].
Proof.
  unfold acquired. intros H He.
  destruct (mode_var self).
  - destruct (custom_atr_var self) as [|a|] eqn:Hc; simpl in H.
    + apply bind_raise in H. destruct H as [H | [cs [Hf H]]].
      * apply from_feed_raise in H. subst. destruct He; discriminate.
      * apply from_feed_ok in Hf.
        destruct (Z.of_nat (length cs) <? n + 1)%Z eqn:E; simpl in H;
          [injection H as <-; destruct He; discriminate|].
        apply Z.ltb_ge in E.
        apply bind_raise in H. destruct H as [H | [v [_ H]]].
        -- apply (compute_atr_raise_guarded cs n e E) in H. subst.
           destruct He; discriminate.
        -- apply bind_raise in H. destruct H as [H | [last [_ H]]]; [|discriminate].
           apply py_index_last_raise in H. destruct H as [-> ->].
           simpl in E. repeat split; [lia | exact Hf].
    + apply bind_raise in H. destruct H as [H | [cs [Hf H]]].
      * apply from_feed_raise in H. subst. destruct He; discriminate.
      * destruct (Nat.eqb (length cs) 0) eqn:E; simpl in H;
          [injection H as <-; destruct He; discriminate|].
        apply bind_raise in H. destruct H as [H | [last [_ H]]]; [|discriminate].
        apply py_index_last_raise in H. destruct H as [-> _]. discriminate.
    + injection H as <-. destruct He; discriminate.
  - raise_cases H; destruct He; discriminate.
Qed.

(** X17.  [on_calculate] never reports the length error of
    [compute_atr]: its own length test comes first.  And, whatever a
    feed call raises being [FeedError] here, its own code raises
    [IndexError] in exactly one situation: CEX mode, no custom ATR, a
    negative period, a positive notional and an empty series, where
    [compute_atr] returns and [candles[-1]] then fails. *)
Theorem on_calculate_index_error (self : App) (feed : Feed) :
  on_calculate self feed <> raise (ValueError TooFewCandlesForATR)
  /\ (on_calculate self feed = raise IndexError
      <-> mode_var self = CEX /\ custom_atr_var self = Blank
          /\ exists n notional,
               atr_n_var self = Parsed n /\ (n < 0)%Z
               /\ open_notional_var self = Parsed notional /\ 0 < notional
               /\ fetch_okx_candles feed (Z.max (n + 50) 100) = Some []).
Proof.
  assert (G : forall e, on_calculate self feed = raise e ->
                e = IndexError \/ e = ValueError TooFewCandlesForATR ->
                e = IndexError /\ mode_var self = CEX /\ custom_atr_var self = Blank
                /\ exists n notional,
                     atr_n_var self = Parsed n /\ (n < 0)%Z
                     /\ open_notional_var self = Parsed notional /\ 0 < notional
                     /\ fetch_okx_candles feed (Z.max (n + 50) 100) = Some []).
  { intros e H He. unfold on_calculate in H. rewrite on_calculate_with_unfold in H.
    destruct (atr_n_var self) as [|n|] eqn:Hn; simpl in H;
      try (injection H as <-; destruct He; discriminate).
    destruct (open_notional_var self) as [|notional|] eqn:Ho; simpl in H;
      try (injection H as <-; destruct He; discriminate).
    destruct (Qleb notional 0) eqn:E; simpl in H;
      [injection H as <-; destruct He; discriminate|].
    apply Qleb_false in E.
    apply bind_raise in H. destruct H as [H | [[a lp] [_ H]]].
    - destruct (acquired_raise_index self feed n e H He) as (-> & Hm & Hc & Hneg & Hf).
      repeat split; try assumption. exists n, notional. repeat split; assumption.
    - apply finish_raise_kind in H. destruct H as [H1 H2].
      destruct He as [->| ->]; contradiction. }
  split.
  - intros H. destruct (G _ H (or_intror eq_refl)) as [E _]. discriminate.
  - split.
    + intros H. destruct (G _ H (or_introl eq_refl)) as (_ & Hm & Hc & Hex).
      repeat split; assumption.
    + intros (Hm & Hc & n & notional & Hn & Hneg & Ho & Hpos & Hf).
      unfold on_calculate. rewrite on_calculate_with_unfold, Hn, Ho. simpl.
      rewrite (proj2 (Qleb_false notional 0) Hpos). simpl.
      unfold acquired. rewrite Hm, Hc, Hf. simpl.
      destruct (0 <? n + 1)%Z eqn:E; [apply Z.ltb_lt in E; lia|]. simpl.
      rewrite (compute_atr_negative_period [] n Hneg). reflexivity.
Qed.

Lemma on_calculate_index_error_witness :
  on_calculate (period_form (-1)) (series_feed []) = raise IndexError.
Proof.
  apply (proj2 (on_calculate_index_error (period_form (-1)) (series_feed []))).
  split; [reflexivity|]. split; [reflexivity|].
  exists (-1)%Z, 100. repeat split; lia.
Defined.

(** ** [App.parse_inst_symbols] *)

Lemma split_at_dash_spec (s : string) :
  has_dash s = true ->
  has_dash (fst (split_at_dash s)) = false
  /\ s = (fst (split_at_dash s) ++ "-" ++ snd (split_at_dash s))%string.
Proof.
  induction s as [|c rest IH]; simpl; [discriminate|].
  destruct (Ascii.eqb c "-"%char) eqn:E.
  - intros _. apply Ascii.eqb_eq in E. subst c. simpl. auto.
  - intros H. destruct (IH H) as [Hb Hs].
    destruct (split_at_dash rest) as [base quote]. simpl in *.
    rewrite E. split; [exact Hb|]. now rewrite <- Hs.
Qed.

Lemma split_at_dash_append (base quote : string) :
  has_dash base = false ->
  has_dash (base ++ "-" ++ quote)%string = true
  /\ split_at_dash (base ++ "-" ++ quote)%string = (base, quote).
Proof.
  induction base as [|c rest IH]; simpl; [auto|].
  destruct (Ascii.eqb c "-"%char) eqn:E; [discriminate|].
  intros H. destruct (IH H) as [Hd Hs]. split; [exact Hd|].
  simpl in Hs. now rewrite Hs.
Qed.

(** X18.  [parse_inst_symbols] cuts at the first dash only: the base
    has no dash in it and base, dash and quote put together are the
    instrument again; an instrument without a dash is its own base,
    quoted in USDT. *)
Theorem parse_inst_symbols_first_dash (inst : string) :
  let (base, quote) := parse_inst_symbols inst in
  if has_dash inst
  then has_dash base = false /\ inst = (base ++ "-" ++ quote)%string
  else base = inst /\ quote = "USDT"%string.
Proof.
  unfold parse_inst_symbols. destruct (has_dash inst) eqn:E.
  - pose proof (split_at_dash_spec inst E) as H.
    destruct (split_at_dash inst) as [base quote]. exact H.
  - auto.
Qed.

(** X19.  Joining and parsing is a round trip: for a base without a
    dash, [parse_inst_symbols] of base, dash, quote is the base and the
    quote, the quote with any dashes of its own. *)
Theorem parse_inst_symbols_round_trip (base quote : string) :
  has_dash base = false ->
  parse_inst_symbols (base ++ "-" ++ quote)%string = (base, quote).
Proof.
  intros H. unfold parse_inst_symbols.
  destruct (split_at_dash_append base quote H) as [Hd Hs].
  now rewrite Hd, Hs.
Qed.

Lemma parse_inst_symbols_round_trip_witness :
  parse_inst_symbols "BTC-USDT-SWAP" = ("BTC"%string, "USDT-SWAP"%string).
Proof.
  apply (parse_inst_symbols_round_trip "BTC" "USDT-SWAP"). reflexivity.
Defined.

(** ** [fetch_okx_candles], after the reply has arrived *)

Lemma py_collect_Forall2 {A B} (f : A -> result B) (xs : list A) (ys : list B) :
  py_collect f xs = Ok ys -> Forall2 (fun x y => f x = Ok y) xs ys.
Proof.
  revert ys. induction xs as [|x xs IH]; simpl; intros ys H.
  - injection H as <-. constructor.
  - apply bind_ok in H. destruct H as [y [Hy H]].
    apply bind_ok in H. destruct H as [ys' [Hys H]].
    injection H as <-. constructor; [exact Hy | now apply IH].
Qed.

Lemma okx_candle_ok (item : list Cell) (c : Candle) :
  okx_candle item = Ok c ->
  exists c0 c1 c2 c3 c4 more,
    item = c0 :: c1 :: c2 :: c3 :: c4 :: more
    /\ as_int c0 = Some (ts c)
    /\ as_float c1 = Some (open c)
    /\ as_float c2 = Some (high c)
    /\ as_float c3 = Some (low c)
    /\ as_float c4 = Some (close c).
Proof.
  intros H.
  destruct item as [|c0 [|c1 [|c2 [|c3 [|c4 more]]]]];
    unfold okx_candle, py_index, py_int, py_float in H; simpl in H;
    repeat match type of H with
           | context [match ?x with Some _ => _ | None => _ end] =>
               destruct x eqn:?; simpl in H
           end;
    try discriminate.
  injection H as <-. exists c0, c1, c2, c3, c4, more. simpl. auto 10.
Qed.

Lemma okx_candles_of_reply_ok (data : OkxReply) (candles : list Candle) :
  okx_candles_of_reply data = Ok candles ->
  okx_code data = Some "0"%string
  /\ Forall2 (fun item c => okx_candle item = Ok c) (okx_rows data) (rev candles).
Proof.
  unfold okx_candles_of_reply. intros H.
  destruct (okx_code data) as [code|]; [|discriminate].
  destruct (String.eqb code "0") eqn:E; [|discriminate].
  apply String.eqb_eq in E. subst code.
  apply bind_ok in H. destruct H as [cs [Hcs H]]. injection H as <-.
  rewrite rev_involutive. split; [reflexivity | now apply py_collect_Forall2].
Qed.

Lemma Forall2_nth_error {A B} (R : A -> B -> Prop) (xs : list A) (ys : list B)
    (i : nat) (x : A) :
  Forall2 R xs ys -> nth_error xs i = Some x ->
  exists y, nth_error ys i = Some y /\ R x y.
Proof.
  intros H. revert i. induction H as [|a b xs ys Hab _ IH]; intros i Hi.
  - destruct i; discriminate.
  - destruct i as [|i]; simpl in *.
    + injection Hi as <-. now exists b.
    + now apply IH.
Qed.

(** X20.  A successful [fetch_okx_candles] reads every row of the reply
    and returns them in reverse order: the row at position [i] is the
    candle at position [n - 1 - i], so the reply's first row, the most
    recent one, is the last candle. *)
Theorem okx_candles_of_reply_reverses (data : OkxReply) (candles : list Candle) :
  okx_candles_of_reply data = Ok candles ->
  length candles = length (okx_rows data)
  /\ forall i item,
       nth_error (okx_rows data) i = Some item ->
       exists c, okx_candle item = Ok c
                 /\ nth_error candles (length candles - 1 - i) = Some c.
Proof.
  intros H. apply okx_candles_of_reply_ok in H. destruct H as [_ H].
  pose proof (Forall2_length H) as Hlen. rewrite length_rev in Hlen.
  split; [now symmetry|].
  intros i item Hi.
  destruct (Forall2_nth_error _ _ _ i item H Hi) as [c [Hc Hitem]].
  exists c. split; [exact Hitem|].
  rewrite nth_error_rev in Hc.
  destruct (Nat.ltb_spec i (length candles)); [|discriminate].
  replace (length candles - 1 - i)%nat with (length candles - S i)%nat by lia.
  exact Hc.
Qed.

Lemma okx_candles_of_reply_reverses_witness :
  exists c, okx_candle [cell 3000; cell 12; cell 14; cell 11; cell 13; cell 7] = Ok c
            /\ nth_error [mkCandle 1000 9 11 8 10; mkCandle 2000 10 13 9 12;
                          mkCandle 3000 12 14 11 13] (3 - 1 - 0) = Some c.
Proof.
  apply (proj2 (okx_candles_of_reply_reverses sample_reply
                  [mkCandle 1000 9 11 8 10; mkCandle 2000 10 13 9 12;
                   mkCandle 3000 12 14 11 13] eq_refl) 0%nat).
  reflexivity.
Defined.

Lemma StronglySorted_snoc {A} (R : A -> A -> Prop) (l : list A) (a : A) :
  StronglySorted R l -> Forall (fun x => R x a) l -> StronglySorted R (l ++ [a]).
Proof.
  induction 1 as [|x l Hl IH Hx]; intros Ha; simpl.
  - constructor; constructor.
  - inversion Ha as [|? ? Hxa Hla]; subst.
    constructor; [now apply IH|].
    apply Forall_app. split; [exact Hx | now constructor].
Qed.

Lemma StronglySorted_rev {A} (R : A -> A -> Prop) (l : list A) :
  StronglySorted R l -> StronglySorted (fun x y => R y x) (rev l).
Proof.
  induction 1 as [|x l Hl IH Hx]; simpl; [constructor|].
  apply StronglySorted_snoc; [exact IH|].
  apply Forall_rev. exact Hx.
Qed.

Lemma okx_candle_row_ts (item : list Cell) (c : Candle) :
  okx_candle item = Ok c -> row_ts item = Some (ts c).
Proof.
  intros H. apply okx_candle_ok in H.
  destruct H as (c0 & c1 & c2 & c3 & c4 & more & -> & H0 & _). exact H0.
Qed.

(** X21.  The result is in time order: when the rows of the reply come
    newest first, each later than all that follow, the candles returned
    have strictly increasing time stamps. *)
Theorem okx_candles_of_reply_chronological (data : OkxReply) (candles : list Candle) :
  okx_candles_of_reply data = Ok candles ->
  StronglySorted newer (okx_rows data) ->
  StronglySorted (fun a b => (ts a < ts b)%Z) candles.
Proof.
  intros H Hs. apply okx_candles_of_reply_ok in H. destruct H as [_ H].
  rewrite <- (rev_involutive candles).
  apply (StronglySorted_rev (fun a b => (ts b < ts a)%Z)).
  revert Hs. induction H as [|item c rows cs Hc Hrest IH]; intros Hs; [constructor|].
  inversion Hs as [|? ? Hs' Hall]; subst.
  constructor; [now apply IH|].
  clear IH Hs Hs'. induction Hrest as [|item' c' rows cs Hc' _ IH']; [constructor|].
  inversion Hall as [|? ? Hn Hall']; subst.
  constructor; [|now apply IH'].
  destruct Hn as (ta & tb & Ha & Hb & Hlt).
  rewrite (okx_candle_row_ts _ _ Hc) in Ha. rewrite (okx_candle_row_ts _ _ Hc') in Hb.
  injection Ha as <-. injection Hb as <-. exact Hlt.
Qed.

Lemma okx_candles_of_reply_chronological_witness :
  StronglySorted (fun a b => (ts a < ts b)%Z)
    [mkCandle 1000 9 11 8 10; mkCandle 2000 10 13 9 12; mkCandle 3000 12 14 11 13].
Proof.
  apply (okx_candles_of_reply_chronological sample_reply _ eq_refl).
  repeat constructor;
    eexists; eexists; (split; [reflexivity|]); (split; [reflexivity|]); lia.
Defined.

Lemma okx_candle_readable (item : list Cell) :
  row_readable item = true <-> exists c, okx_candle item = Ok c.
Proof.
  split.
  - intros H.
    destruct item as [|c0 [|c1 [|c2 [|c3 [|c4 more]]]]]; try discriminate.
    simpl in H. unfold okx_candle, py_index, py_int, py_float. simpl.
    destruct (as_int c0), (as_float c1), (as_float c2), (as_float c3), (as_float c4);
      try discriminate.
    simpl. eexists. reflexivity.
  - intros [c H]. apply okx_candle_ok in H.
    destruct H as (c0 & c1 & c2 & c3 & c4 & more & -> & H0 & H1 & H2 & H3 & H4).
    simpl. now rewrite H0, H1, H2, H3, H4.
Qed.

Lemma py_collect_total {A B} (f : A -> result B) (xs : list A) :
  (forall x, In x xs -> exists y, f x = Ok y) -> exists ys, py_collect f xs = Ok ys.
Proof.
  induction xs as [|x xs IH]; intros H; [now exists []|].
  destruct (H x (or_introl eq_refl)) as [y Hy].
  destruct IH as [ys Hys]; [intros z Hz; apply H; now right|].
  exists (y :: ys). simpl. now rewrite Hy, Hys.
Qed.

Lemma okx_candle_raise (item : list Cell) (e : exn) :
  okx_candle item = raise e -> e = IndexError \/ e = ValueError NotANumber.
Proof.
  intros H.
  destruct item as [|c0 [|c1 [|c2 [|c3 [|c4 more]]]]];
    unfold okx_candle, py_index, py_int, py_float in H; simpl in H;
    repeat match type of H with
           | context [match ?x with Some _ => _ | None => _ end] => destruct x; simpl in H
           end;
    first [discriminate | injection H as <-; auto].
Qed.

(** X22.  [fetch_okx_candles] returns only from a reply whose code is
    ["0"] and whose rows are all readable, with one candle for each
    row; it does return when the code is ["0"] and ["data"] is a list of
    readable rows; any other code is refused; and one short or
    unreadable row in the list fails the whole call, with the
    [IndexError] of the missing field or the [ValueError] of the
    conversion: no row is dropped. *)
Theorem okx_candles_of_reply_outcome (data : OkxReply) :
  (forall candles,
     okx_candles_of_reply data = Ok candles ->
     okx_code data = Some "0"%string
     /\ forallb row_readable (okx_rows data) = true
     /\ length candles = length (okx_rows data))
  /\ (forall rows,
        okx_code data = Some "0"%string ->
        okx_data data = Some rows ->
        forallb row_readable rows = true ->
        exists candles,
          okx_candles_of_reply data = Ok candles /\ length candles = length rows)
  /\ (okx_code data <> Some "0"%string ->
      okx_candles_of_reply data = raise FeedError)
  /\ (forall rows,
        okx_code data = Some "0"%string ->
        okx_data data = Some rows ->
        forallb row_readable rows = false ->
        okx_candles_of_reply data = raise IndexError
        \/ okx_candles_of_reply data = raise (ValueError NotANumber)).
Proof.
  split; [|split; [|split]].
  - intros candles H. apply okx_candles_of_reply_ok in H. destruct H as [Hc H].
    split; [exact Hc|]. split.
    + apply forallb_forall. intros item Hin.
      apply In_nth_error in Hin. destruct Hin as [i Hi].
      destruct (Forall2_nth_error _ _ _ i item H Hi) as [c [_ Hitem]].
      apply okx_candle_readable. now exists c.
    + apply Forall2_length in H. now rewrite length_rev in H.
  - intros rows Hc Hd Hall.
    assert (Hr : okx_rows data = rows) by (unfold okx_rows; now rewrite Hd).
    destruct (py_collect_total okx_candle rows) as [cs Hcs].
    { intros item Hin. apply okx_candle_readable.
      now apply (proj1 (forallb_forall _ _) Hall). }
    exists (rev cs). split.
    + unfold okx_candles_of_reply. rewrite Hc, Hr, Hcs. reflexivity.
    + rewrite length_rev. apply py_collect_Forall2 in Hcs.
      apply Forall2_length in Hcs. now symmetry.
  - intros Hc. unfold okx_candles_of_reply.
    destruct (okx_code data) as [code|]; [|reflexivity].
    destruct (String.eqb code "0") eqn:E; [|reflexivity].
    apply String.eqb_eq in E. now subst code.
  - intros rows Hc Hd Hbad.
    assert (Hr : okx_rows data = rows) by (unfold okx_rows; now rewrite Hd).
    unfold okx_candles_of_reply. rewrite Hc, Hr. simpl.
    destruct (py_collect okx_candle rows) as [e|cs] eqn:Hcs.
    + apply py_collect_raise in Hcs. destruct Hcs as [item [_ Hitem]].
      destruct (okx_candle_raise _ _ Hitem) as [-> | ->]; auto.
    + exfalso. apply py_collect_Forall2 in Hcs.
      assert (Hall : forallb row_readable rows = true).
      { apply forallb_forall. intros item Hin.
        apply In_nth_error in Hin. destruct Hin as [i Hi].
        destruct (Forall2_nth_error _ _ _ i item Hcs Hi) as [c [_ Hitem]].
        apply okx_candle_readable. now exists c. }
      rewrite Hall in Hbad. discriminate.
Qed.

Lemma okx_candles_of_reply_outcome_witness :
  (exists candles, okx_candles_of_reply sample_reply = Ok candles
                   /\ length candles = 3%nat)
  /\ okx_candles_of_reply (mkOkxReply (Some "51001"%string) None) = raise FeedError
  /\ (okx_candles_of_reply
        (mkOkxReply (Some "0"%string) (Some [[cell 3000; cell 12; cell 14]]))
      = raise IndexError
      \/ okx_candles_of_reply
           (mkOkxReply (Some "0"%string) (Some [[cell 3000; cell 12; cell 14]]))
         = raise (ValueError NotANumber)).
Proof.
  split; [|split].
  - apply (proj1 (proj2 (okx_candles_of_reply_outcome sample_reply)) _ eq_refl eq_refl).
    reflexivity.
  - apply (proj1 (proj2 (proj2 (okx_candles_of_reply_outcome
                                  (mkOkxReply (Some "51001"%string) None))))).
    discriminate.
  - apply (proj2 (proj2 (proj2 (okx_candles_of_reply_outcome
             (mkOkxReply (Some "0"%string) (Some [[cell 3000; cell 12; cell 14]])))))
             _ eq_refl eq_refl).
    reflexivity.
Defined.

Lemma okx_feed_last_candle (replies : Z -> OkxReply) (dex : option Q)
    (limit : Z) (cs : list Candle) (c : Candle) :
  fetch_okx_candles (okx_feed replies dex) limit = Some (cs ++ [c]) ->
  exists item rest c4,
    okx_rows (replies limit) = item :: rest
    /\ nth_error item 4 = Some c4
    /\ as_float c4 = Some (close c).
Proof.
  unfold okx_feed. simpl. intros H.
  destruct (okx_candles_of_reply (replies limit)) as [e|candles] eqn:E; [discriminate|].
  injection H as ->.
  apply okx_candles_of_reply_ok in E. destruct E as [_ E].
  rewrite rev_app_distr in E. simpl in E.
  inversion E as [|item c' rest cs' Hitem _ Hrows]; subst.
  apply okx_candle_ok in Hitem.
  destruct Hitem as (c0 & c1 & c2 & c3 & c4 & more & -> & _ & _ & _ & _ & H4).
  exists (c0 :: c1 :: c2 :: c3 :: c4 :: more), rest, c4. auto.
Qed.

(** X23.  In CEX mode the last price of a successful calculation is the
    close, the fifth field, of the first row of the reply, which is the
    most recent candle; the reply is the one asked for with limit
    [max(atr_n + 2, 50)] when a custom ATR is given and
    [max(atr_n + 50, 100)] when not. *)
Theorem on_calculate_last_price_is_newest_close
    (self : App) (replies : Z -> OkxReply) (dex : option Q) (r : Calc) :
  on_calculate self (okx_feed replies dex) = Ok r ->
  mode_var self = CEX ->
  exists n item rest c4,
    atr_n_var self = Parsed n
    /\ okx_rows (replies (if nonblank (custom_atr_var self)
                          then Z.max (n + 2) 50 else Z.max (n + 50) 100))
       = item :: rest
    /\ nth_error item 4 = Some c4
    /\ as_float c4 = Some (last_close r).
Proof.
  intros H Hmode. apply on_calculate_ok in H.
  destruct H as (n & notional & Hn & _ & _ & Ha & _).
  exists n.
  assert (G : exists cs c,
             fetch_okx_candles (okx_feed replies dex)
               (if nonblank (custom_atr_var self)
                then Z.max (n + 2) 50 else Z.max (n + 50) 100) = Some (cs ++ [c])
             /\ last_close r = close c).
  { destruct (custom_atr_var self) as [|a|] eqn:Hc.
    - destruct (acquired_historic_ok self _ n _ _ Hmode Hc Ha) as (cs & c & Hf & _ & _ & Hlp).
      exists cs, c. auto.
    - rewrite (acquired_custom _ self _ n a Hc) in Ha.
      apply bind_ok in Ha. destruct Ha as [lp [Hlp Ha]]. injection Ha as _ <-.
      unfold last_price_custom in Hlp. rewrite Hmode in Hlp.
      apply bind_ok in Hlp. destruct Hlp as [candles [Hf Hlp]].
      apply from_feed_ok in Hf.
      destruct (negb _); [|discriminate].
      apply bind_ok in Hlp. destruct Hlp as [last [Hlast Hlp]].
      apply py_index_last_inv in Hlast. destruct Hlast as [cs ->].
      injection Hlp as <-. exists cs, last. auto.
    - unfold acquired in Ha. rewrite Hmode, Hc in Ha. discriminate. }
  destruct G as (cs & c & Hf & Hlp).
  destruct (okx_feed_last_candle replies dex _ cs c Hf) as (item & rest & c4 & Hr & H4 & Hc4).
  exists item, rest, c4. rewrite Hlp. auto.
Qed.

Lemma on_calculate_last_price_is_newest_close_witness :
  exists r n item rest c4,
    on_calculate (custom_form 1) (okx_feed (fun _ => sample_reply) None) = Ok r
    /\ atr_n_var (custom_form 1) = Parsed n
    /\ okx_rows sample_reply = item :: rest
    /\ nth_error item 4 = Some c4
    /\ as_float c4 = Some (last_close r).
Proof.
  eexists.
  destruct (on_calculate_last_price_is_newest_close (custom_form 1)
              (fun _ => sample_reply) None _ eq_refl eq_refl)
    as (n & item & rest & c4 & Hn & Hr & H4 & Hc).
  exists n, item, rest, c4. split; [reflexivity|]. auto.
Defined.

(** ** [fetch_dex_price_by_token], after the reply has arrived *)

Lemma Qltb_lt (a b : Q) : Qltb a b = true <-> a < b.
Proof.
  unfold Qltb. rewrite negb_true_iff. apply (Qleb_false b a).
Qed.

Lemma key_ltb_lt (a b : Z * Q) : key_ltb a b = true <-> key_lt a b.
Proof.
  unfold key_ltb, key_lt.
  rewrite orb_true_iff, andb_true_iff, Z.ltb_lt, Z.eqb_eq, Qltb_lt. reflexivity.
Qed.

Lemma key_lt_trans (a b c : Z * Q) : key_lt a b -> key_lt b c -> key_lt a c.
Proof.
  unfold key_lt. intros [H1|[H1 H1']] [H2|[H2 H2']].
  - left. lia.
  - left. lia.
  - left. lia.
  - right. split; [lia | now apply Qlt_trans with (snd b)].
Qed.

Lemma key_lt_negtrans (a b c : Z * Q) : key_lt a c -> ~ key_lt a b -> key_lt b c.
Proof.
  unfold key_lt. intros Hac Hab.
  destruct (Z.lt_trichotomy (fst a) (fst b)) as [H|[H|H]].
  - exfalso. apply Hab. now left.
  - assert (Hle : snd b <= snd a).
    { apply Qnot_lt_le. intros Hlt. apply Hab. right. now split. }
    destruct Hac as [Hac|[Hac Hac']].
    + left. lia.
    + right. split; [lia | now apply Qle_lt_trans with (snd a)].
  - destruct Hac as [Hac|[Hac Hac']]; left; lia.
Qed.

Section SortDesc.
Context {A : Type} (key : A -> Z * Q).

Lemma insert_desc_head (x : A) (l : list A) :
  exists rest,
    insert_desc key x l =
      match l with
      | [] => x
      | y :: _ => if key_ltb (key x) (key y) then y else x
      end :: rest.
Proof.
  destruct l as [|y ys]; simpl; [now exists []|].
  destruct (key_ltb (key x) (key y)); eexists; reflexivity.
Qed.

(** The head of the sorted list is the first element of greatest key. *)
Lemma sort_desc_head (l : list A) :
  l <> [] ->
  exists before best after rest,
    l = before ++ best :: after
    /\ sort_desc key l = best :: rest
    /\ (forall p, In p before -> key_lt (key p) (key best))
    /\ (forall p, In p after -> ~ key_lt (key best) (key p)).
Proof.
  induction l as [|x xs IH]; intros Hne; [contradiction|].
  destruct xs as [|x' xs'].
  - exists [], x, [], []. simpl. repeat split; intros p [].
  - destruct IH as (before & best & after & rest & Hl & Hs & Hb & Ha); [discriminate|].
    change (sort_desc key (x :: x' :: xs'))
      with (insert_desc key x (sort_desc key (x' :: xs'))).
    rewrite Hs.
    destruct (insert_desc_head x (best :: rest)) as [rest' Hi]. rewrite Hi.
    destruct (key_ltb (key x) (key best)) eqn:E.
    + apply key_ltb_lt in E.
      exists (x :: before), best, after, rest'. rewrite Hl. simpl.
      repeat split; [|exact Ha].
      intros p [<-|Hp]; [exact E | now apply Hb].
    + assert (Hn : ~ key_lt (key x) (key best)).
      { intros H. apply key_ltb_lt in H. congruence. }
      exists [], x, (x' :: xs'), rest'. cbn [app].
      split; [reflexivity|]. split; [reflexivity|]. split; [intros p [] |].
      intros p Hp. rewrite Hl in Hp. apply in_app_or in Hp.
      destruct Hp as [Hp|[<-|Hp]].
      * intros H. apply Hn. apply key_lt_trans with (key p); [exact H | now apply Hb].
      * exact Hn.
      * intros H. apply (Ha p Hp). now apply key_lt_negtrans with (key x).
Qed.
End SortDesc.

(** [dex_price_of_reply] in terms of [candidates] and [preferred]. *)
Lemma dex_price_of_reply_unfold (lower upper : string -> string)
    (chain_id token_address : string) (prefer_quotes : option (list string))
    (data : DexReply) :
  dex_price_of_reply lower upper chain_id token_address prefer_quotes data =
    if String.eqb token_address "" then inl TokenAddressMissing
    else match reply_all_pairs data with
         | [] => inl PairsNotFound
         | _ :: _ =>
             match sort_desc (score upper (preferred prefer_quotes))
                     (candidates lower chain_id (reply_all_pairs data)) with
             | [] => inl NoFirstPair
             | best :: _ =>
                 match priceUsd best with
                 | None => inl PriceUsdMissing
                 | Some price_usd =>
                     match as_float price_usd with
                     | None => inl PriceNotANumber
                     | Some price =>
                         inr (mkDexQuote price (dexId best) (pairAddress best)
                                (str_or (baseToken_symbol best) "Token")
                                (str_or (quoteToken_symbol best) "USD"))
                     end
                 end
             end
         end.
Proof.
  unfold dex_price_of_reply, reply_all_pairs, candidates, preferred.
  destruct (String.eqb token_address ""); [reflexivity|].
  destruct (list_or _ _); reflexivity.
Qed.

(** A success of [dex_price_of_reply], read backwards. *)
Lemma dex_price_of_reply_ok (lower upper : string -> string)
    (chain_id token_address : string) (prefer_quotes : option (list string))
    (data : DexReply) (q : DexQuote) :
  dex_price_of_reply lower upper chain_id token_address prefer_quotes data = inr q ->
  exists best rest price_usd,
    token_address <> ""%string
    /\ reply_all_pairs data <> []
    /\ sort_desc (score upper (preferred prefer_quotes))
         (candidates lower chain_id (reply_all_pairs data)) = best :: rest
    /\ priceUsd best = Some price_usd
    /\ as_float price_usd = Some (quote_price q)
    /\ quote_dex q = dexId best
    /\ quote_pair q = pairAddress best
    /\ quote_base q = str_or (baseToken_symbol best) "Token"
    /\ quote_quote q = str_or (quoteToken_symbol best) "USD".
Proof.
  rewrite dex_price_of_reply_unfold. intros H.
  destruct (String.eqb token_address "") eqn:Et; [discriminate|].
  apply String.eqb_neq in Et.
  destruct (reply_all_pairs data) as [|p0 ps] eqn:Ep; [discriminate|].
  destruct (sort_desc _ _) as [|best rest] eqn:Es; [discriminate|].
  destruct (priceUsd best) as [price_usd|] eqn:Hp; [|discriminate].
  destruct (as_float price_usd) as [price|] eqn:Hf; [|discriminate].
  injection H as <-. exists best, rest, price_usd. simpl.
  repeat split; try assumption; try reflexivity. discriminate.
Qed.

Lemma key_lt_irrefl (a : Z * Q) : ~ key_lt a a.
Proof.
  unfold key_lt. intros [H|[_ H]]; [lia | exact (Qlt_irrefl _ H)].
Qed.

Lemma sort_desc_nil {A} (key : A -> Z * Q) (l : list A) :
  sort_desc key l = [] -> l = [].
Proof.
  destruct l as [|x xs]; [reflexivity|]. intros H.
  change (sort_desc key (x :: xs)) with (insert_desc key x (sort_desc key xs)) in H.
  destruct (insert_desc_head key x (sort_desc key xs)) as [rest Hi].
  rewrite Hi in H. discriminate.
Qed.

Lemma candidates_nonempty (lower : string -> string) (chain_id : string)
    (pairs : list Pair) :
  pairs <> [] -> candidates lower chain_id pairs <> [].
Proof.
  intros H. unfold candidates.
  destruct (negb _); [|exact H].
  destruct (filter _ pairs) eqn:E; [exact H | discriminate].
Qed.

Lemma candidates_incl (lower : string -> string) (chain_id : string)
    (pairs : list Pair) (p : Pair) :
  In p (candidates lower chain_id pairs) -> In p pairs.
Proof.
  unfold candidates. destruct (negb _); [|auto].
  destruct (filter _ pairs) eqn:E; [auto|].
  intros H. rewrite <- E in H. now apply filter_In in H.
Qed.

Lemma candidates_on_chain (lower : string -> string) (chain_id : string)
    (pairs : list Pair) (p0 p : Pair) :
  chain_id <> ""%string ->
  In p0 pairs -> on_chain lower chain_id p0 = true ->
  In p (candidates lower chain_id pairs) -> on_chain lower chain_id p = true.
Proof.
  intros Hc Hin Hon. unfold candidates.
  apply String.eqb_neq in Hc. rewrite Hc. simpl.
  destruct (filter _ pairs) eqn:E.
  - exfalso. assert (Hf : In p0 (filter (on_chain lower chain_id) pairs))
      by (apply filter_In; auto).
    rewrite E in Hf. exact Hf.
  - intros H. rewrite <- E in H. now apply filter_In in H.
Qed.

(** The pair that a success reports, and where it stands among the
    candidates. *)
Lemma dex_price_of_reply_best (lower upper : string -> string)
    (chain_id token_address : string) (prefer_quotes : option (list string))
    (data : DexReply) (q : DexQuote) :
  dex_price_of_reply lower upper chain_id token_address prefer_quotes data = inr q ->
  exists before best after price_usd,
    candidates lower chain_id (reply_all_pairs data) = before ++ best :: after
    /\ (forall p, In p before ->
          key_lt (score upper (preferred prefer_quotes) p)
                 (score upper (preferred prefer_quotes) best))
    /\ (forall p, In p after ->
          ~ key_lt (score upper (preferred prefer_quotes) best)
                   (score upper (preferred prefer_quotes) p))
    /\ priceUsd best = Some price_usd
    /\ as_float price_usd = Some (quote_price q)
    /\ quote_dex q = dexId best
    /\ quote_pair q = pairAddress best.
Proof.
  intros H. apply dex_price_of_reply_ok in H.
  destruct H as (best & rest & price_usd & _ & Hne & Hs & Hp & Hf & Hd & Ha & _).
  destruct (sort_desc_head (score upper (preferred prefer_quotes))
              (candidates lower chain_id (reply_all_pairs data)))
    as (before & best' & after & rest' & Hl & Hs' & Hb & Haf).
  { now apply candidates_nonempty. }
  rewrite Hs in Hs'. injection Hs' as <- _.
  exists before, best, after, price_usd. repeat split; assumption.
Qed.

(** X24.  The pair whose price is returned is the first pair of
    greatest score among the candidates: every candidate before it in
    the reply scores strictly less, and none after it scores more.
    The score compares the quote bonus first and the liquidity only
    between equal bonuses, and equal scores keep the reply's order. *)
Theorem dex_price_of_reply_first_of_best_score (lower upper : string -> string)
    (chain_id token_address : string) (prefer_quotes : option (list string))
    (data : DexReply) (q : DexQuote) :
  dex_price_of_reply lower upper chain_id token_address prefer_quotes data = inr q ->
  exists before best after price_usd,
    candidates lower chain_id (reply_all_pairs data) = before ++ best :: after
    /\ (forall p, In p before ->
          key_lt (score upper (preferred prefer_quotes) p)
                 (score upper (preferred prefer_quotes) best))
    /\ (forall p, In p after ->
          ~ key_lt (score upper (preferred prefer_quotes) best)
                   (score upper (preferred prefer_quotes) p))
    /\ priceUsd best = Some price_usd
    /\ as_float price_usd = Some (quote_price q)
    /\ quote_dex q = dexId best
    /\ quote_pair q = pairAddress best.
Proof. apply dex_price_of_reply_best. Qed.

(** X25.  The chain filter is a preference, not a requirement: the pair
    reported is always one of the reply's pairs; when a chain is given
    and some pair of the reply is on it, the pair reported is on that
    chain; when none is, the call still answers from the other
    chains. *)
Theorem dex_price_of_reply_chain_preference (lower upper : string -> string)
    (chain_id token_address : string) (prefer_quotes : option (list string))
    (data : DexReply) (q : DexQuote) :
  dex_price_of_reply lower upper chain_id token_address prefer_quotes data = inr q ->
  exists best price_usd,
    In best (reply_all_pairs data)
    /\ priceUsd best = Some price_usd
    /\ as_float price_usd = Some (quote_price q)
    /\ quote_pair q = pairAddress best
    /\ (chain_id <> ""%string ->
        forall p, In p (reply_all_pairs data) ->
                  on_chain lower chain_id p = true ->
                  on_chain lower chain_id best = true).
Proof.
  intros H. apply dex_price_of_reply_best in H.
  destruct H as (before & best & after & price_usd & Hl & _ & _ & Hp & Hf & _ & Ha).
  assert (Hin : In best (candidates lower chain_id (reply_all_pairs data))).
  { rewrite Hl. apply in_or_app. right. now left. }
  exists best, price_usd. repeat split; try assumption.
  - now apply candidates_incl in Hin.
  - intros Hc p Hp0 Hon. now apply (candidates_on_chain lower chain_id _ p best Hc Hp0 Hon).
Qed.

(** X26.  A quote in a preferred stable coin beats any liquidity: when
    some candidate is quoted in one of [prefer_quotes], so is the pair
    reported, however much more liquid the other candidates are. *)
Theorem dex_price_of_reply_prefers_stable_quote (lower upper : string -> string)
    (chain_id token_address : string) (prefer_quotes : option (list string))
    (data : DexReply) (q : DexQuote) :
  dex_price_of_reply lower upper chain_id token_address prefer_quotes data = inr q ->
  exists best price_usd,
    In best (candidates lower chain_id (reply_all_pairs data))
    /\ priceUsd best = Some price_usd
    /\ as_float price_usd = Some (quote_price q)
    /\ quote_pair q = pairAddress best
    /\ forall p,
         In p (candidates lower chain_id (reply_all_pairs data)) ->
         str_in (upper (str_or (quoteToken_symbol p) "")) (preferred prefer_quotes) = true ->
         str_in (upper (str_or (quoteToken_symbol best) "")) (preferred prefer_quotes) = true.
Proof.
  intros H. apply dex_price_of_reply_best in H.
  destruct H as (before & best & after & price_usd & Hl & Hb & Haf & Hp & Hf & _ & Ha).
  exists best, price_usd. repeat split; try assumption.
  - rewrite Hl. apply in_or_app. right. now left.
  - intros p Hin Hpref.
    assert (Hn : ~ key_lt (score upper (preferred prefer_quotes) best)
                          (score upper (preferred prefer_quotes) p)).
    { rewrite Hl in Hin. apply in_app_or in Hin. destruct Hin as [Hin|[<-|Hin]].
      - intros Hlt. apply (key_lt_irrefl (score upper (preferred prefer_quotes) p)).
        apply key_lt_trans with (score upper (preferred prefer_quotes) best);
          [now apply Hb | exact Hlt].
      - apply key_lt_irrefl.
      - now apply Haf. }
    unfold score, key_lt in Hn. cbv zeta in Hn. cbn [fst snd] in Hn.
    rewrite Hpref in Hn.
    destruct (str_in (upper (str_or (quoteToken_symbol best) "")) (preferred prefer_quotes));
      [reflexivity|].
    exfalso. apply Hn. left.
    destruct (str_in (upper (str_or (quoteToken_symbol best) "")) wrapped_quotes); lia.
Qed.

(** X27.  The errors of [fetch_dex_price_by_token]: an empty address is
    refused whatever the reply holds; the no-pairs error is raised only
    with an address and a reply that shows no pair under either key,
    and it is raised when ["pairs"] is missing, [null] or empty and
    ["data"] holds an empty ["pairs"] list; and [pairs[0]] never
    fails. *)
Theorem dex_price_of_reply_errors (lower upper : string -> string)
    (chain_id token_address : string) (prefer_quotes : option (list string))
    (data : DexReply) :
  (token_address = ""%string ->
     dex_price_of_reply lower upper chain_id token_address prefer_quotes data
     = inl TokenAddressMissing)
  /\ (dex_price_of_reply lower upper chain_id token_address prefer_quotes data
      = inl PairsNotFound ->
      token_address <> ""%string /\ reply_all_pairs data = [])
  /\ (token_address <> ""%string ->
      reply_pairs data = None \/ reply_pairs data = Some [] ->
      reply_data_pairs data = Some [] ->
      dex_price_of_reply lower upper chain_id token_address prefer_quotes data
      = inl PairsNotFound)
  /\ dex_price_of_reply lower upper chain_id token_address prefer_quotes data
     <> inl NoFirstPair.
Proof.
  rewrite dex_price_of_reply_unfold. split; [|split; [|split]].
  - intros ->. reflexivity.
  - destruct (String.eqb token_address "") eqn:Ht; [discriminate|].
    apply String.eqb_neq in Ht. intros H. split; [exact Ht|].
    destruct (reply_all_pairs data) as [|p0 ps] eqn:Ep; [reflexivity|]. exfalso.
    destruct (sort_desc _ _) as [|best rest]; [discriminate|].
    destruct (priceUsd best) as [c|]; [|discriminate].
    destruct (as_float c); discriminate.
  - intros Ht Hp Hd. apply String.eqb_neq in Ht. rewrite Ht.
    unfold reply_all_pairs. rewrite Hd. destruct Hp as [-> | ->]; reflexivity.
  - destruct (String.eqb token_address ""); [discriminate|].
    destruct (reply_all_pairs data) as [|p0 ps] eqn:Ep; [discriminate|].
    destruct (sort_desc _ _) as [|best rest] eqn:Es.
    + apply sort_desc_nil in Es. exfalso.
      apply (candidates_nonempty lower chain_id (p0 :: ps)); [discriminate | exact Es].
    + destruct (priceUsd best) as [c|]; [|discriminate].
      destruct (as_float c); discriminate.
Qed.

Example dex_price_of_reply_sample :
  dex_price_of_reply ascii_lower ascii_upper "BSC" "0xtoken" None sample_dex_reply
  = inr sample_dex_quote.
Proof. reflexivity. Qed.

Lemma dex_price_of_reply_first_of_best_score_witness :
  exists before best after price_usd,
    candidates ascii_lower "BSC" (reply_all_pairs sample_dex_reply)
    = before ++ best :: after
    /\ priceUsd best = Some price_usd
    /\ as_float price_usd = Some 3.
Proof.
  destruct (dex_price_of_reply_first_of_best_score ascii_lower ascii_upper
              "BSC" "0xtoken" None sample_dex_reply sample_dex_quote eq_refl)
    as (before & best & after & price_usd & Hl & _ & _ & Hp & Hf & _).
  exists before, best, after, price_usd. auto.
Defined.

Lemma dex_price_of_reply_chain_preference_witness :
  exists best, In best (reply_all_pairs sample_dex_reply)
               /\ on_chain ascii_lower "BSC" best = true
               /\ Some "0xb"%string = pairAddress best.
Proof.
  destruct (dex_price_of_reply_chain_preference ascii_lower ascii_upper
              "BSC" "0xtoken" None sample_dex_reply sample_dex_quote eq_refl)
    as (best & price_usd & Hin & _ & _ & Ha & Hc).
  exists best. split; [exact Hin|]. split; [|exact Ha].
  apply (Hc ltac:(discriminate) bsc_wbnb_pair); [simpl; auto | reflexivity].
Defined.

Lemma dex_price_of_reply_prefers_stable_quote_witness :
  exists best,
    Some "0xb"%string = pairAddress best
    /\ str_in (ascii_upper (str_or (quoteToken_symbol best) "")) (preferred None) = true.
Proof.
  destruct (dex_price_of_reply_prefers_stable_quote ascii_lower ascii_upper
              "BSC" "0xtoken" None sample_dex_reply sample_dex_quote eq_refl)
    as (best & price_usd & _ & _ & _ & Ha & Hpref).
  exists best. split; [exact Ha|].
  apply (Hpref bsc_usdt_pair); [simpl; auto | reflexivity].
Defined.

Lemma dex_price_of_reply_errors_witness :
  dex_price_of_reply ascii_lower ascii_upper "BSC" "" None sample_dex_reply
  = inl TokenAddressMissing
  /\ dex_price_of_reply ascii_lower ascii_upper "BSC" "0xtoken" None
       (mkDexReply None (Some [])) = inl PairsNotFound
  /\ ("0xtoken"%string <> ""%string
      /\ reply_all_pairs (mkDexReply (Some []) (Some [])) = []).
Proof.
  split; [|split].
  - apply (proj1 (dex_price_of_reply_errors ascii_lower ascii_upper "BSC" "" None
                    sample_dex_reply)). reflexivity.
  - apply (proj1 (proj2 (proj2 (dex_price_of_reply_errors ascii_lower ascii_upper "BSC"
                                  "0xtoken" None (mkDexReply None (Some []))))));
      [discriminate | now left | reflexivity].
  - apply (proj1 (proj2 (dex_price_of_reply_errors ascii_lower ascii_upper "BSC"
                           "0xtoken" None (mkDexReply (Some []) (Some []))))).
    reflexivity.
Defined.

(** ** [App.on_mode_change] *)

(** X28.  After [on_mode_change] the window is consistent with its
    mode: the chain selector shows in DEX mode only, the label matches
    the mode, price and status are cleared; in CEX mode the instrument
    is never empty, and in DEX mode it is never a spelling of BTC-USDT.
    Running the handler again changes nothing. *)
Theorem on_mode_change_consistent (upper : string -> string) (self : Window) :
  upper ""%string = ""%string ->
  let w := on_mode_change upper self in
  mode_combo w = mode_combo self
  /\ price_var w = "--"%string /\ status_var w = ""%string
  /\ match mode_combo w with
     | CEX => chain_shown w = false /\ inst_label w = InstIdLabel
              /\ inst_var w <> ""%string
     | DEX => chain_shown w = true /\ inst_label w = TokenAddressLabel
              /\ upper (inst_var w) <> "BTC-USDT"%string
     end
  /\ on_mode_change upper w = w.
Proof.
  intros Hu. unfold on_mode_change. destruct self as [m inst lbl shown price status].
  simpl. destruct m; simpl.
  - destruct (String.eqb inst "") eqn:E; simpl.
    + repeat split; discriminate.
    + rewrite E. apply String.eqb_neq in E. repeat split; assumption.
  - destruct (String.eqb (upper inst) "BTC-USDT") eqn:E; simpl.
    + rewrite Hu. simpl. repeat split; discriminate.
    + rewrite E. apply String.eqb_neq in E. repeat split; assumption.
Qed.

Lemma on_mode_change_consistent_witness :
  on_mode_change ascii_upper (on_mode_change ascii_upper start_window)
  = on_mode_change ascii_upper start_window.
Proof.
  apply (on_mode_change_consistent ascii_upper start_window eq_refl).
Defined.

(** X29.  Switching to DEX and back to CEX never leaves the instrument
    empty: it is BTC-USDT again when it was empty or any spelling of
    BTC-USDT, and the text it was otherwise. *)
Theorem select_mode_dex_then_cex (upper : string -> string) (self : Window) :
  inst_var (select_mode upper CEX (select_mode upper DEX self))
  = if String.eqb (upper (inst_var self)) "BTC-USDT" then "BTC-USDT"%string
    else if String.eqb (inst_var self) "" then "BTC-USDT"%string
    else inst_var self.
Proof.
  unfold select_mode, on_mode_change.
  destruct self as [m inst lbl shown price status]. simpl.
  destruct (String.eqb (upper inst) "BTC-USDT"); reflexivity.
Qed.

(** * The stop and the hitting time on doubles *)

Local Open Scope float_scope.

(** ** Comparisons with zero *)

Lemma float_lt0_not_le0 (s : float) : (0 <? s) = true -> (s <=? 0) = false.
Proof.
  rewrite ltb_spec, leb_spec. unfold SFltb, SFleb.
  change (Prim2SF 0) with (S754_zero false).
  destruct (Prim2SF s) as [sg|sg| |sg m e]; simpl; try discriminate;
    destruct sg; simpl; congruence.
Qed.

Lemma float_not_le0_not_eq0 (s : float) : (s <=? 0) = false -> (s =? 0) = false.
Proof.
  rewrite leb_spec, eqb_spec. unfold SFleb, SFeqb.
  destruct (SFcompare (Prim2SF s) (Prim2SF 0)) as [[ | | ]|]; congruence.
Qed.

(** ** [median_hitting_time_bm] *)

Lemma IEEE_median_hitting_time_bm_le0 (sigma barrier_abs dt : float) :
  (sigma <=? 0) = true ->
  IEEE.median_hitting_time_bm sigma barrier_abs dt = IEEE.Ok infinity.
Proof. intros H. unfold IEEE.median_hitting_time_bm. now rewrite H. Qed.

Lemma IEEE_median_hitting_time_bm_not_le0 (sigma barrier_abs dt : float) :
  (sigma <=? 0) = false ->
  IEEE.median_hitting_time_bm sigma barrier_abs dt
  = if IEEE.pow2_overflows (barrier_abs / sigma) then IEEE.raise IEEE.OverflowError
    else IEEE.Ok (0.5 * ((barrier_abs / sigma) * (barrier_abs / sigma)) * dt).
Proof.
  intros H. unfold IEEE.median_hitting_time_bm, IEEE.py_div, IEEE.py_pow2.
  rewrite H, (float_not_le0_not_eq0 sigma H). cbn [IEEE.bind IEEE.Ok].
  destruct (IEEE.pow2_overflows (barrier_abs / sigma)); reflexivity.
Qed.

(** C2, amended.  For [sigma <= 0] the function returns positive
    infinity as an ordinary value.  For [sigma > 0] it returns the
    double [0.5 * (barrier_abs / sigma) ** 2 * dt_seconds] when the
    square is in the range of a double, and raises [OverflowError] when
    the quotient is finite and its square is not. *)
Theorem IEEE_median_hitting_time_bm_formula (sigma barrier_abs dt : float) :
  ((sigma <=? 0) = true ->
     IEEE.median_hitting_time_bm sigma barrier_abs dt = IEEE.Ok infinity)
  /\ ((0 <? sigma) = true ->
      (IEEE.pow2_overflows (barrier_abs / sigma) = false ->
         IEEE.median_hitting_time_bm sigma barrier_abs dt
         = IEEE.Ok (0.5 * ((barrier_abs / sigma) * (barrier_abs / sigma)) * dt))
      /\ (IEEE.pow2_overflows (barrier_abs / sigma) = true ->
         IEEE.median_hitting_time_bm sigma barrier_abs dt
         = IEEE.raise IEEE.OverflowError)).
Proof.
  split.
  - apply IEEE_median_hitting_time_bm_le0.
  - intros H. apply float_lt0_not_le0 in H.
    rewrite (IEEE_median_hitting_time_bm_not_le0 sigma barrier_abs dt H).
    split; intros ->; reflexivity.
Qed.

Lemma IEEE_median_hitting_time_bm_formula_witness :
  IEEE.median_hitting_time_bm 0 4 3600 = IEEE.Ok infinity
  /\ IEEE.median_hitting_time_bm 2 4 3600 = IEEE.Ok (0.5 * ((4 / 2) * (4 / 2)) * 3600)
  /\ IEEE.median_hitting_time_bm 1 IEEE.f_1e200 1 = IEEE.raise IEEE.OverflowError.
Proof.
  split; [|split].
  - apply (proj1 (IEEE_median_hitting_time_bm_formula 0 4 3600)). reflexivity.
  - apply (proj1 (proj2 (IEEE_median_hitting_time_bm_formula 2 4 3600) eq_refl)).
    reflexivity.
  - apply (proj2 (proj2 (IEEE_median_hitting_time_bm_formula 1 IEEE.f_1e200 1) eq_refl)).
    reflexivity.
Defined.

(** The formula does not hold for every [sigma > 0]: with
    [sigma = 1.0], a barrier of [1e200] and a bar of one second nothing
    is returned, the square raises [OverflowError]. *)
Lemma IEEE_median_hitting_time_bm_overflow :
  (0 <? 1) = true
  /\ IEEE.median_hitting_time_bm 1 IEEE.f_1e200 1 = IEEE.raise IEEE.OverflowError
  /\ forall v, IEEE.median_hitting_time_bm 1 IEEE.f_1e200 1 <> IEEE.Ok v.
Proof.
  split; [reflexivity|]. split; [reflexivity|]. intros v. discriminate.
Qed.

(** With a positive [sigma] the result can also be infinite, or zero. *)
Example IEEE_median_hitting_time_bm_infinite :
  IEEE.median_hitting_time_bm IEEE.f_1e_153 5 3600 = IEEE.Ok infinity.
Proof. reflexivity. Qed.

Example IEEE_median_hitting_time_bm_zero :
  IEEE.median_hitting_time_bm IEEE.f_1e200 5 3600 = IEEE.Ok 0.
Proof. reflexivity. Qed.

Example IEEE_median_hitting_time_bm_7200 :
  IEEE.median_hitting_time_bm 2 4 3600 = IEEE.Ok 7200.
Proof. reflexivity. Qed.

(** X8.  [median_hitting_time_bm] never raises [ZeroDivisionError] nor
    a [ValueError]: the division is reached only when [sigma <= 0] is
    false, and then [sigma] is not zero.  The one exception it can
    raise is [OverflowError], exactly when [sigma <= 0] is false and the
    square of the quotient is out of range; in every other case it
    returns. *)
Theorem IEEE_median_hitting_time_bm_raises_only_overflow
    (sigma barrier_abs dt : float) :
  (IEEE.median_hitting_time_bm sigma barrier_abs dt = IEEE.raise IEEE.OverflowError
   <-> (sigma <=? 0) = false /\ IEEE.pow2_overflows (barrier_abs / sigma) = true)
  /\ IEEE.median_hitting_time_bm sigma barrier_abs dt <> IEEE.raise IEEE.ZeroDivisionError
  /\ (forall m, IEEE.median_hitting_time_bm sigma barrier_abs dt
                <> IEEE.raise (IEEE.ValueError m))
  /\ ((exists v, IEEE.median_hitting_time_bm sigma barrier_abs dt = IEEE.Ok v)
      <-> (sigma <=? 0) = true \/ IEEE.pow2_overflows (barrier_abs / sigma) = false).
Proof.
  destruct (sigma <=? 0) eqn:E.
  - rewrite (IEEE_median_hitting_time_bm_le0 sigma barrier_abs dt E).
    split; [|split; [|split]].
    + split; [discriminate | intros [H _]; discriminate].
    + discriminate.
    + intros m. discriminate.
    + split; [intros _; now left | intros _; eexists; reflexivity].
  - rewrite (IEEE_median_hitting_time_bm_not_le0 sigma barrier_abs dt E).
    destruct (IEEE.pow2_overflows (barrier_abs / sigma)).
    + split; [|split; [|split]].
      * split; [intros _; now split | reflexivity].
      * discriminate.
      * intros m. discriminate.
      * split; [intros [v H]; discriminate | intros [H|H]; discriminate].
    + split; [|split; [|split]].
      * split; [discriminate | intros [_ H]; discriminate].
      * discriminate.
      * intros m. discriminate.
      * split; [intros _; now right | intros _; eexists; reflexivity].
Qed.

(** ** [App.compute_stop_distance] *)

(** C9, amended.  What a successful [compute_stop_distance]
    guarantees, whatever the last price.  From the level box: a
    distance that is strictly positive, [last - level] for a long and
    [level - last] for a short, a last price that is not zero, and the
    percentage [distance / last * 100].  From the percentage box: the
    percentage entered, for which [pct <= 0] is false, and the distance
    [last * (pct / 100)], on which there is no test. *)
Theorem IEEE_compute_stop_distance_guarantees (self : IEEE.App) (lp d p : float) :
  IEEE.compute_stop_distance self lp = IEEE.Ok (d, p) ->
  (nonblank (IEEE.stop_pct_var self) = true ->
     IEEE.stop_pct_var self = Parsed p
     /\ (p <=? 0) = false
     /\ d = lp * (p / 100))
  /\ (nonblank (IEEE.stop_pct_var self) = false ->
      (0 <? d) = true
      /\ (lp =? 0) = false
      /\ p = d / lp * 100
      /\ exists lvl,
           IEEE.stop_level_var self = Parsed lvl
           /\ d = match IEEE.side_var self with
                  | Long => lp - lvl
                  | Short => lvl - lp
                  end).
Proof.
  unfold IEEE.compute_stop_distance. intros H. split; intros Hnb; rewrite Hnb in H.
  - destruct (IEEE.stop_pct_var self) as [|v|]; try discriminate.
    simpl in H. destruct (v <=? 0) eqn:E; [discriminate|].
    simpl in H. injection H as <- <-. auto.
  - destruct (IEEE.stop_level_var self) as [|lvl|]; try discriminate.
    simpl in H.
    set (x := match IEEE.side_var self with
              | Long => lp - lvl
              | Short => lvl - lp
              end) in *.
    assert (Hd : match IEEE.side_var self with
                 | Long => IEEE.py_max 0 (lp - lvl)
                 | Short => IEEE.py_max 0 (lvl - lp)
                 end = IEEE.py_max 0 x)
      by (unfold x; destruct (IEEE.side_var self); reflexivity).
    rewrite Hd in H. clear Hd. unfold IEEE.py_max in H.
    destruct (0 <? x) eqn:Ex.
    + destruct (x <=? 0) eqn:E; [discriminate|]. simpl in H.
      unfold IEEE.py_div in H. destruct (lp =? 0) eqn:El; [discriminate|].
      simpl in H. injection H as <- <-.
      repeat split; try assumption. exists lvl. split; reflexivity.
    + discriminate.
Qed.

Lemma IEEE_compute_stop_distance_guarantees_witness :
  ((5 <=? 0) = false /\ 5 = 100 * (5 / 100))
  /\ ((0 <? 5) = true /\ 5 = 5 / 100 * 100).
Proof.
  split.
  - destruct (proj1 (IEEE_compute_stop_distance_guarantees (IEEE.pct_form 5) 100 5 5 eq_refl)
                eq_refl) as (_ & Hp & Hd).
    split; assumption.
  - destruct (proj2 (IEEE_compute_stop_distance_guarantees (IEEE.level_form Long 95)
                       100 5 5 eq_refl) eq_refl) as (Hd & _ & Hp & _).
    split; assumption.
Defined.

(** A successful call does not always return two positive numbers,
    even at a positive last price.  A percentage of [5e-324] at the
    price 1.0 passes the test and gives a distance of zero; the text
    [nan] passes it too and gives NaN for both; and at an infinite last
    price the level box gives an infinite distance with NaN for the
    percentage. *)
Lemma IEEE_compute_stop_distance_not_positive :
  ((0 <? 1) = true
   /\ IEEE.compute_stop_distance (IEEE.pct_form IEEE.f_5e_324) 1
      = IEEE.Ok (0, IEEE.f_5e_324)
   /\ (0 <? 0) = false)
  /\ (IEEE.compute_stop_distance (IEEE.pct_form nan) 1 = IEEE.Ok (nan, nan)
      /\ (0 <? nan) = false)
  /\ ((0 <? infinity) = true
      /\ IEEE.compute_stop_distance (IEEE.level_form Long 1) infinity
         = IEEE.Ok (infinity, nan)).
Proof. repeat split. Qed.

(** * The request handler on doubles *)

(** ** The error monad *)

Lemma IEEE_bind_ok {A B} (c : IEEE.result A) (k : A -> IEEE.result B) (b : B) :
  IEEE.bind c k = IEEE.Ok b -> exists a, c = IEEE.Ok a /\ k a = IEEE.Ok b.
Proof.
  destruct c as [e|a]; simpl; intros H; [discriminate|]. now exists a.
Qed.

Lemma IEEE_bind_raise {A B} (c : IEEE.result A) (k : A -> IEEE.result B) (e : IEEE.exn) :
  IEEE.bind c k = IEEE.raise e ->
  c = IEEE.raise e \/ exists a, c = IEEE.Ok a /\ k a = IEEE.raise e.
Proof.
  destruct c as [e'|a]; simpl; intros H.
  - left. injection H as ->. reflexivity.
  - right. now exists a.
Qed.

Lemma IEEE_py_collect_raise {A B} (f : A -> IEEE.result B) (xs : list A) (e : IEEE.exn) :
  IEEE.py_collect f xs = IEEE.raise e -> exists x, In x xs /\ f x = IEEE.raise e.
Proof.
  induction xs as [|x xs IH]; simpl; intros H; [discriminate|].
  apply IEEE_bind_raise in H. destruct H as [H | [y [_ H]]].
  - exists x. auto.
  - apply IEEE_bind_raise in H. destruct H as [H | [ys [_ H]]]; [|discriminate].
    destruct (IH H) as [x' [Hin Hx']]. exists x'. auto.
Qed.

Lemma IEEE_py_index_raise {A} (l : list A) (i : Z) (e : IEEE.exn) :
  IEEE.py_index l i = IEEE.raise e -> e = IEEE.IndexError.
Proof.
  unfold IEEE.py_index. intros H.
  destruct (_ <? 0)%Z; [now injection H|].
  destruct (nth_error _ _); [discriminate | now injection H].
Qed.

Lemma IEEE_py_div_raise (a b : float) (e : IEEE.exn) :
  IEEE.py_div a b = IEEE.raise e -> e = IEEE.ZeroDivisionError.
Proof.
  unfold IEEE.py_div. destruct (b =? 0); intros H; [now injection H | discriminate].
Qed.

Lemma IEEE_py_pow2_raise (x : float) (e : IEEE.exn) :
  IEEE.py_pow2 x = IEEE.raise e -> e = IEEE.OverflowError.
Proof.
  unfold IEEE.py_pow2. destruct (IEEE.pow2_overflows x); intros H;
    [now injection H | discriminate].
Qed.

Lemma IEEE_py_float_of_int_raise (n : Z) (e : IEEE.exn) :
  IEEE.py_float_of_int n = IEEE.raise e -> e = IEEE.OverflowError.
Proof.
  unfold IEEE.py_float_of_int. destruct (is_infinity _); intros H;
    [now injection H | discriminate].
Qed.

Lemma IEEE_py_parse_raise {A} (x : entry A) (e : IEEE.exn) :
  IEEE.py_parse x = IEEE.raise e -> e = IEEE.ValueError NotANumber.
Proof. destruct x; simpl; intros H; try discriminate; now injection H. Qed.

Lemma IEEE_from_feed_raise {A} (x : option A) (e : IEEE.exn) :
  IEEE.from_feed x = IEEE.raise e -> e = IEEE.FeedError.
Proof. destruct x; simpl; intros H; try discriminate; now injection H. Qed.

(** Case analysis of a hypothesis [H : c = IEEE.raise e] along the binds
    and tests of [c], down to the primitive that raised. *)
Ltac ieee_raise_cases H :=
  cbv beta in H;
  lazymatch type of H with
  | IEEE.bind _ _ = IEEE.raise _ =>
      apply IEEE_bind_raise in H; destruct H as [H | [? [_ H]]];
      [ieee_raise_cases H | ieee_raise_cases H]
  | (if ?b then _ else _) = IEEE.raise _ => destruct b; ieee_raise_cases H
  | (match ?x with _ => _ end) = IEEE.raise _ => destruct x; ieee_raise_cases H
  | IEEE.Ok _ = IEEE.raise _ => discriminate H
  | IEEE.raise _ = IEEE.raise _ => injection H as <-
  | IEEE.py_index _ _ = IEEE.raise _ => apply IEEE_py_index_raise in H; subst
  | IEEE.py_div _ _ = IEEE.raise _ => apply IEEE_py_div_raise in H; subst
  | IEEE.py_pow2 _ = IEEE.raise _ => apply IEEE_py_pow2_raise in H; subst
  | IEEE.py_float_of_int _ = IEEE.raise _ => apply IEEE_py_float_of_int_raise in H; subst
  | IEEE.py_parse _ = IEEE.raise _ => apply IEEE_py_parse_raise in H; subst
  | IEEE.from_feed _ = IEEE.raise _ => apply IEEE_from_feed_raise in H; subst
  | _ => idtac
  end.

(** ** Which exceptions each step can raise *)

Lemma IEEE_py_sum_div_raise (xs : list float) (n : Z) (e : IEEE.exn) :
  IEEE.py_sum_div xs n = IEEE.raise e ->
  e = IEEE.ZeroDivisionError \/ e = IEEE.OverflowError.
Proof.
  unfold IEEE.py_sum_div. intros H. ieee_raise_cases H; auto.
Qed.

Lemma IEEE_compute_atr_raise (candles : list IEEE.Candle) (period : Z) (e : IEEE.exn) :
  IEEE.compute_atr candles period = IEEE.raise e ->
  e = IEEE.ValueError TooFewCandlesForATR \/ e = IEEE.ZeroDivisionError
  \/ e = IEEE.IndexError \/ e = IEEE.OverflowError.
Proof.
  unfold IEEE.compute_atr. intros H.
  destruct (negb _); [|left; now injection H].
  apply IEEE_bind_raise in H. destruct H as [H | [trs [_ H]]].
  - apply IEEE_py_collect_raise in H. destruct H as [i [_ H]].
    ieee_raise_cases H; auto.
  - apply IEEE_bind_raise in H. destruct H as [H | [vs [_ H]]].
    + apply IEEE_py_collect_raise in H. destruct H as [i [_ H]].
      apply IEEE_py_sum_div_raise in H. destruct H as [-> | ->]; auto.
    + apply IEEE_py_index_raise in H. auto.
Qed.

Lemma IEEE_median_hitting_time_bm_raise (sigma b dt : float) (e : IEEE.exn) :
  IEEE.median_hitting_time_bm sigma b dt = IEEE.raise e -> e = IEEE.OverflowError.
Proof.
  unfold IEEE.median_hitting_time_bm. intros H.
  destruct (sigma <=? 0) eqn:E; [discriminate|].
  unfold IEEE.py_div in H. rewrite (float_not_le0_not_eq0 sigma E) in H.
  ieee_raise_cases H. reflexivity.
Qed.

Lemma IEEE_compute_stop_distance_raise (self : IEEE.App) (lp : float) (e : IEEE.exn) :
  IEEE.compute_stop_distance self lp = IEEE.raise e ->
  e <> IEEE.ValueError NotionalNotPositive.
Proof.
  unfold IEEE.compute_stop_distance. intros H.
  ieee_raise_cases H; discriminate.
Qed.

(** ** The handler in two halves *)

Lemma IEEE_on_calculate_with_unfold atr self feed :
  IEEE.on_calculate_with atr self feed =
    IEEE.bind (IEEE.py_parse (IEEE.atr_n_var self)) (fun atr_n =>
    IEEE.bind (IEEE.py_parse (IEEE.open_notional_var self)) (fun notional =>
      if negb (notional <=? 0) then
        IEEE.bind (IEEE.acquired atr self feed atr_n) (fun al =>
          IEEE.finish self notional (fst al) (snd al))
      else IEEE.raise (IEEE.ValueError NotionalNotPositive))).
Proof.
  unfold IEEE.on_calculate_with, IEEE.acquired, IEEE.finish.
  destruct (IEEE.py_parse (IEEE.atr_n_var self)) as [e|atr_n]; [reflexivity|].
  destruct (IEEE.py_parse (IEEE.open_notional_var self)) as [e|notional]; [reflexivity|].
  cbn [IEEE.bind]. destruct (negb _); [|reflexivity].
  match goal with |- IEEE.bind ?c _ = IEEE.bind ?c _ => destruct c as [e|[a lp]] end;
    reflexivity.
Qed.

Lemma IEEE_finish_raise (self : IEEE.App) (notional a lp : float) (e : IEEE.exn) :
  IEEE.finish self notional a lp = IEEE.raise e ->
  e <> IEEE.ValueError NotionalNotPositive.
Proof.
  unfold IEEE.finish. intros H.
  apply IEEE_bind_raise in H. destruct H as [H | [[d p] [_ H]]].
  - now apply IEEE_compute_stop_distance_raise in H.
  - apply IEEE_bind_raise in H. destruct H as [H | [pb [_ H]]].
    + apply IEEE_py_div_raise in H. subst. discriminate.
    + apply IEEE_bind_raise in H. destruct H as [H | [ms [_ H]]]; [|discriminate].
      apply IEEE_median_hitting_time_bm_raise in H. subst. discriminate.
Qed.

Lemma IEEE_acquired_raise (self : IEEE.App) (feed : IEEE.Feed) (atr_n : Z)
    (e : IEEE.exn) :
  IEEE.acquired IEEE.compute_atr self feed atr_n = IEEE.raise e ->
  e <> IEEE.ValueError NotionalNotPositive.
Proof.
  unfold IEEE.acquired. intros H.
  destruct (IEEE.mode_var self).
  - destruct (nonblank _).
    + ieee_raise_cases H; discriminate.
    + apply IEEE_bind_raise in H. destruct H as [H | [cs [_ H]]].
      * apply IEEE_from_feed_raise in H. subst. discriminate.
      * destruct (negb _); [|injection H as <-; discriminate].
        apply IEEE_bind_raise in H. destruct H as [H | [v [_ H]]].
        -- apply IEEE_compute_atr_raise in H.
           destruct H as [-> | [-> | [-> | ->]]]; discriminate.
        -- ieee_raise_cases H; discriminate.
  - ieee_raise_cases H; discriminate.
Qed.

(** The second half of the handler when each of its steps returns. *)
Lemma IEEE_finish_returns (self : IEEE.App) (notional a lp d p m : float) :
  IEEE.compute_stop_distance self lp = IEEE.Ok (d, p) ->
  (lp =? 0) = false ->
  IEEE.median_hitting_time_bm a d (IEEE.int_to_float (bar_to_seconds (IEEE.bar_var self)))
  = IEEE.Ok m ->
  IEEE.finish self notional a lp =
    IEEE.Ok (IEEE.mkCalc lp a d p notional (notional / lp) (notional / lp * d) notional
               (bar_to_seconds (IEEE.bar_var self)) m (m / 3600)).
Proof.
  intros Hs Hlp Hm. unfold IEEE.finish. rewrite Hs. cbn [IEEE.bind IEEE.Ok].
  unfold IEEE.py_div at 1. rewrite Hlp. cbn [IEEE.bind IEEE.Ok].
  rewrite Hm. reflexivity.
Qed.

Lemma IEEE_finish_ok (self : IEEE.App) (notional a lp : float) (r : IEEE.Calc) :
  IEEE.finish self notional a lp = IEEE.Ok r ->
  IEEE.last_close r = lp /\ IEEE.atr_value r = a /\ IEEE.open_notional r = notional
  /\ IEEE.compute_stop_distance self lp = IEEE.Ok (IEEE.stop_abs r, IEEE.stop_pct r)
  /\ (lp =? 0) = false
  /\ IEEE.position_base r = notional / lp
  /\ IEEE.loss_quote r = IEEE.position_base r * IEEE.stop_abs r
  /\ IEEE.dt_seconds r = bar_to_seconds (IEEE.bar_var self)
  /\ IEEE.median_hitting_time_bm a (IEEE.stop_abs r) (IEEE.int_to_float (IEEE.dt_seconds r))
     = IEEE.Ok (IEEE.median_seconds r)
  /\ IEEE.median_hours r = IEEE.median_seconds r / 3600.
Proof.
  unfold IEEE.finish. intros H.
  apply IEEE_bind_ok in H. destruct H as [[d p] [Hs H]].
  apply IEEE_bind_ok in H. destruct H as [pb [Hd H]].
  apply IEEE_bind_ok in H. destruct H as [ms [Hm H]].
  injection H as <-. cbn.
  unfold IEEE.py_div in Hd. destruct (lp =? 0) eqn:E; [discriminate|].
  injection Hd as <-.
  repeat split; try assumption; reflexivity.
Qed.

Lemma IEEE_on_calculate_with_ok atr self feed r :
  IEEE.on_calculate_with atr self feed = IEEE.Ok r ->
  exists atr_n notional,
    IEEE.atr_n_var self = Parsed atr_n
    /\ IEEE.open_notional_var self = Parsed notional
    /\ (notional <=? 0) = false
    /\ IEEE.acquired atr self feed atr_n = IEEE.Ok (IEEE.atr_value r, IEEE.last_close r)
    /\ IEEE.finish self notional (IEEE.atr_value r) (IEEE.last_close r) = IEEE.Ok r.
Proof.
  rewrite IEEE_on_calculate_with_unfold. intros H.
  apply IEEE_bind_ok in H. destruct H as [atr_n [Hn H]].
  apply IEEE_bind_ok in H. destruct H as [notional [Ho H]].
  destruct (notional <=? 0) eqn:E; [discriminate|]. cbn [negb] in H.
  apply IEEE_bind_ok in H. destruct H as [[a lp] [Ha H]]. cbn [fst snd] in H.
  exists atr_n, notional.
  destruct (IEEE_finish_ok _ _ _ _ _ H) as (Hlp & Hatr & _).
  subst a lp.
  destruct (IEEE.atr_n_var self); try discriminate. injection Hn as ->.
  destruct (IEEE.open_notional_var self); try discriminate. injection Ho as ->.
  repeat split; assumption.
Qed.

(** C7.  With the period and the notional readable, [on_calculate]
    raises the non-positive-notional error exactly when
    [open_notional <= 0].  Otherwise, for a positive last price and a
    resolved stop distance, and when the hitting-time estimate that
    follows returns, the result has [position = notional / last] and
    [loss = position * distance], the float quotient and product with
    no rounding step of the program's own; and every successful result
    has these two values. *)
Theorem IEEE_on_calculate_loss_sizing (self : IEEE.App) (feed : IEEE.Feed)
    (atr_n : Z) (notional : float) :
  IEEE.atr_n_var self = Parsed atr_n ->
  IEEE.open_notional_var self = Parsed notional ->
  (IEEE.on_calculate self feed = IEEE.raise (IEEE.ValueError NotionalNotPositive)
   <-> (notional <=? 0) = true)
  /\ (forall a lp d p m,
        (notional <=? 0) = false ->
        (0 <? lp) = true ->
        IEEE.acquired IEEE.compute_atr self feed atr_n = IEEE.Ok (a, lp) ->
        IEEE.compute_stop_distance self lp = IEEE.Ok (d, p) ->
        IEEE.median_hitting_time_bm a d
          (IEEE.int_to_float (bar_to_seconds (IEEE.bar_var self))) = IEEE.Ok m ->
        IEEE.on_calculate self feed =
          IEEE.Ok (IEEE.mkCalc lp a d p notional (notional / lp) (notional / lp * d)
                     notional (bar_to_seconds (IEEE.bar_var self)) m (m / 3600)))
  /\ (forall r,
        IEEE.on_calculate self feed = IEEE.Ok r ->
        IEEE.position_base r = notional / IEEE.last_close r
        /\ IEEE.loss_quote r = IEEE.position_base r * IEEE.stop_abs r).
Proof.
  intros Hn Ho. split; [|split].
  - unfold IEEE.on_calculate. rewrite IEEE_on_calculate_with_unfold, Hn, Ho.
    cbn [IEEE.py_parse IEEE.bind IEEE.Ok].
    destruct (notional <=? 0) eqn:E; cbn [negb].
    + split; reflexivity.
    + split; [|discriminate].
      intros H. exfalso.
      apply IEEE_bind_raise in H. destruct H as [H | [[a lp] [_ H]]].
      * now apply IEEE_acquired_raise in H.
      * now apply IEEE_finish_raise in H.
  - intros a lp d p m Hpos Hlp Ha Hs Hm.
    unfold IEEE.on_calculate. rewrite IEEE_on_calculate_with_unfold, Hn, Ho.
    cbn [IEEE.py_parse IEEE.bind IEEE.Ok]. rewrite Hpos. cbn [negb].
    rewrite Ha. cbn [IEEE.bind IEEE.Ok fst snd].
    apply (IEEE_finish_returns self notional a lp d p m Hs); [|exact Hm].
    apply float_not_le0_not_eq0. now apply float_lt0_not_le0.
  - intros r H. unfold IEEE.on_calculate in H. apply IEEE_on_calculate_with_ok in H.
    destruct H as (n' & notional' & _ & Ho' & _ & _ & Hf).
    rewrite Ho in Ho'. injection Ho' as <-.
    apply IEEE_finish_ok in Hf.
    destruct Hf as (_ & _ & _ & _ & _ & Hpb & Hl & _).
    split; assumption.
Qed.

Lemma IEEE_on_calculate_loss_sizing_witness :
  IEEE.on_calculate (IEEE.pct_form 4) (IEEE.series_feed IEEE.flat_series)
  = IEEE.Ok (IEEE.mkCalc 100 1 4 4 100 1 4 100 3600 28800 8)
  /\ IEEE.on_calculate (IEEE.sizing_form 0) (IEEE.series_feed IEEE.short_series)
     = IEEE.raise (IEEE.ValueError NotionalNotPositive).
Proof.
  split.
  - apply (proj1 (proj2 (IEEE_on_calculate_loss_sizing (IEEE.pct_form 4)
                           (IEEE.series_feed IEEE.flat_series) 14 100 eq_refl eq_refl))
             1 100 4 4 28800); reflexivity.
  - apply (proj1 (IEEE_on_calculate_loss_sizing (IEEE.sizing_form 0)
                    (IEEE.series_feed IEEE.short_series) 14 0 eq_refl eq_refl)).
    reflexivity.
Defined.

(** At a stop distance of [1e200] and an ATR of one the sizing is done
    and the hitting-time estimate then raises: the request fails with
    [OverflowError]. *)
Example IEEE_on_calculate_overflow :
  IEEE.on_calculate
    (IEEE.mkApp CEX "1H" (Parsed 14%Z) (Parsed 100) (Parsed 1) Blank
       (Parsed IEEE.f_1e200) Short)
    (IEEE.series_feed IEEE.short_series)
  = IEEE.raise IEEE.OverflowError.
Proof. reflexivity. Qed.

(** ** A custom ATR on the form *)

Lemma IEEE_acquired_custom atr (self : IEEE.App) (feed : IEEE.Feed) (atr_n : Z)
    (a : float) :
  IEEE.custom_atr_var self = Parsed a ->
  IEEE.acquired atr self feed atr_n
  = IEEE.bind (IEEE.last_price_custom self feed atr_n) (fun lp => IEEE.Ok (a, lp)).
Proof.
  intros Hc. unfold IEEE.acquired, IEEE.last_price_custom. rewrite Hc.
  cbn [nonblank IEEE.py_parse IEEE.bind IEEE.Ok].
  destruct (IEEE.mode_var self).
  - destruct (IEEE.from_feed _) as [e|cs]; cbn [IEEE.bind]; [reflexivity|].
    destruct (negb _); [|reflexivity].
    destruct (IEEE.py_index cs (-1)); reflexivity.
  - destruct (IEEE.from_feed _); reflexivity.
Qed.

Lemma IEEE_py_index_last {A} (l : list A) (x : A) :
  IEEE.py_index (l ++ [x]) (-1) = IEEE.Ok x.
Proof.
  unfold IEEE.py_index. rewrite length_app. cbn [length Z.ltb Z.compare].
  replace (-1 + Z.of_nat (length l + 1))%Z with (Z.of_nat (length l)) by lia.
  destruct (Z.of_nat (length l) <? 0)%Z eqn:E; [apply Z.ltb_lt in E; lia|].
  rewrite Nat2Z.id, nth_error_app2, Nat.sub_diag by lia. reflexivity.
Qed.

Lemma IEEE_last_price_custom_cex (self : IEEE.App) (feed : IEEE.Feed) (atr_n : Z) cs c :
  IEEE.mode_var self = CEX ->
  IEEE.fetch_okx_candles feed (Z.max (atr_n + 2) 50) = Some (cs ++ [c]) ->
  IEEE.last_price_custom self feed atr_n = IEEE.Ok (IEEE.close c).
Proof.
  intros Hm Hf. unfold IEEE.last_price_custom. rewrite Hm, Hf.
  cbn [IEEE.from_feed IEEE.bind IEEE.Ok].
  rewrite length_app. cbn [length]. rewrite Nat.add_1_r. cbn [Nat.eqb negb].
  rewrite IEEE_py_index_last. reflexivity.
Qed.

Lemma IEEE_on_calculate_with_custom atr (self : IEEE.App) (feed : IEEE.Feed) (a : float) :
  IEEE.custom_atr_var self = Parsed a ->
  IEEE.on_calculate_with atr self feed =
    IEEE.bind (IEEE.py_parse (IEEE.atr_n_var self)) (fun atr_n =>
    IEEE.bind (IEEE.py_parse (IEEE.open_notional_var self)) (fun notional =>
      if negb (notional <=? 0) then
        IEEE.bind (IEEE.last_price_custom self feed atr_n) (fun lp =>
          IEEE.finish self notional a lp)
      else IEEE.raise (IEEE.ValueError NotionalNotPositive))).
Proof.
  intros Hc. rewrite IEEE_on_calculate_with_unfold.
  destruct (IEEE.py_parse (IEEE.atr_n_var self)) as [e|atr_n]; [reflexivity|].
  destruct (IEEE.py_parse (IEEE.open_notional_var self)) as [e|notional]; [reflexivity|].
  cbn [IEEE.bind]. destruct (negb _); [|reflexivity].
  rewrite (IEEE_acquired_custom atr self feed atr_n a Hc).
  destruct (IEEE.last_price_custom self feed atr_n); reflexivity.
Qed.

(** C8.  With a readable custom ATR [a] on the form: (1) the outcome is
    the same for every ATR routine, so [compute_atr] is not called;
    (2) the calculation returns from the last price alone, in CEX mode
    the final close of a series of any length, in DEX mode the quoted
    price, and the result reports [a] as the ATR, when the stop
    resolves, the price is not zero and the hitting-time estimate
    returns; (3) in every result the hitting time is
    [median_hitting_time_bm(a, distance, dt)]; (4) a last price is still
    required: an empty series is an error; (5) two series with the same
    final close give the same outcome. *)
Theorem IEEE_on_calculate_custom_atr_bypass (self : IEEE.App) (a : float) :
  IEEE.custom_atr_var self = Parsed a ->
  (forall atr feed, IEEE.on_calculate_with atr self feed = IEEE.on_calculate self feed)
  /\ (forall feed atr_n notional lp d p m,
        IEEE.atr_n_var self = Parsed atr_n ->
        IEEE.open_notional_var self = Parsed notional ->
        (notional <=? 0) = false ->
        match IEEE.mode_var self with
        | CEX => exists cs c,
                   IEEE.fetch_okx_candles feed (Z.max (atr_n + 2) 50) = Some (cs ++ [c])
                   /\ lp = IEEE.close c
        | DEX => IEEE.fetch_dex_price_by_token feed = Some lp
        end ->
        (lp =? 0) = false ->
        IEEE.compute_stop_distance self lp = IEEE.Ok (d, p) ->
        IEEE.median_hitting_time_bm a d
          (IEEE.int_to_float (bar_to_seconds (IEEE.bar_var self))) = IEEE.Ok m ->
        IEEE.on_calculate self feed =
          IEEE.Ok (IEEE.mkCalc lp a d p notional (notional / lp) (notional / lp * d)
                     notional (bar_to_seconds (IEEE.bar_var self)) m (m / 3600)))
  /\ (forall feed r,
        IEEE.on_calculate self feed = IEEE.Ok r ->
        IEEE.atr_value r = a
        /\ IEEE.median_hitting_time_bm a (IEEE.stop_abs r)
             (IEEE.int_to_float (IEEE.dt_seconds r)) = IEEE.Ok (IEEE.median_seconds r))
  /\ (forall feed atr_n notional,
        IEEE.mode_var self = CEX ->
        IEEE.atr_n_var self = Parsed atr_n ->
        IEEE.open_notional_var self = Parsed notional ->
        (notional <=? 0) = false ->
        IEEE.fetch_okx_candles feed (Z.max (atr_n + 2) 50) = Some [] ->
        IEEE.on_calculate self feed = IEEE.raise (IEEE.ValueError NoCandles))
  /\ (forall feed1 feed2 atr_n cs1 c1 cs2 c2,
        IEEE.mode_var self = CEX ->
        IEEE.atr_n_var self = Parsed atr_n ->
        IEEE.fetch_okx_candles feed1 (Z.max (atr_n + 2) 50) = Some (cs1 ++ [c1]) ->
        IEEE.fetch_okx_candles feed2 (Z.max (atr_n + 2) 50) = Some (cs2 ++ [c2]) ->
        IEEE.close c1 = IEEE.close c2 ->
        IEEE.on_calculate self feed1 = IEEE.on_calculate self feed2).
Proof.
  intros Hc. split; [|split; [|split; [|split]]].
  - intros atr feed. unfold IEEE.on_calculate.
    now rewrite !(IEEE_on_calculate_with_custom _ self feed a Hc).
  - intros feed atr_n notional lp d p m Hn Ho Hpos Hprice Hlp Hs Hm.
    unfold IEEE.on_calculate.
    rewrite (IEEE_on_calculate_with_custom _ self feed a Hc), Hn, Ho.
    cbn [IEEE.py_parse IEEE.bind IEEE.Ok]. rewrite Hpos. cbn [negb].
    assert (Hq : IEEE.last_price_custom self feed atr_n = IEEE.Ok lp).
    { destruct (IEEE.mode_var self) eqn:Hmode.
      - destruct Hprice as (cs & c & Hf & ->).
        now apply (IEEE_last_price_custom_cex self feed atr_n cs c Hmode Hf).
      - unfold IEEE.last_price_custom. rewrite Hmode, Hprice. reflexivity. }
    rewrite Hq. cbn [IEEE.bind IEEE.Ok].
    apply (IEEE_finish_returns self notional a lp d p m Hs Hlp Hm).
  - intros feed r H. unfold IEEE.on_calculate in H.
    apply IEEE_on_calculate_with_ok in H.
    destruct H as (atr_n & notional & _ & _ & _ & Ha & Hf).
    rewrite (IEEE_acquired_custom _ self feed atr_n a Hc) in Ha.
    apply IEEE_bind_ok in Ha. destruct Ha as [lp [_ Ha]]. injection Ha as Ha _.
    apply IEEE_finish_ok in Hf.
    destruct Hf as (_ & _ & _ & _ & _ & _ & _ & _ & Hm & _).
    rewrite <- Ha in Hm. split; [now symmetry | exact Hm].
  - intros feed atr_n notional Hmode Hn Ho Hpos Hf. unfold IEEE.on_calculate.
    rewrite (IEEE_on_calculate_with_custom _ self feed a Hc), Hn, Ho.
    cbn [IEEE.py_parse IEEE.bind IEEE.Ok]. rewrite Hpos. cbn [negb].
    unfold IEEE.last_price_custom. rewrite Hmode, Hf. reflexivity.
  - intros feed1 feed2 atr_n cs1 c1 cs2 c2 Hmode Hn Hf1 Hf2 Heq.
    unfold IEEE.on_calculate.
    rewrite !(IEEE_on_calculate_with_custom _ self _ a Hc), Hn.
    cbn [IEEE.py_parse IEEE.bind IEEE.Ok].
    rewrite (IEEE_last_price_custom_cex self feed1 atr_n cs1 c1 Hmode Hf1).
    rewrite (IEEE_last_price_custom_cex self feed2 atr_n cs2 c2 Hmode Hf2).
    now rewrite Heq.
Qed.

Lemma IEEE_on_calculate_custom_atr_bypass_witness :
  IEEE.on_calculate (IEEE.custom_form 1) (IEEE.series_feed IEEE.short_series)
  = IEEE.Ok (IEEE.mkCalc 100 1 5 5 100 1 5 100 3600 45000 12.5)
  /\ IEEE.on_calculate (IEEE.dex_form 1) (IEEE.quote_feed 100)
     = IEEE.Ok (IEEE.mkCalc 100 1 5 5 100 1 5 100 3600 45000 12.5)
  /\ IEEE.on_calculate (IEEE.custom_form 1) (IEEE.series_feed IEEE.short_series)
     = IEEE.on_calculate (IEEE.custom_form 1) (IEEE.series_feed IEEE.long_series)
  /\ IEEE.on_calculate (IEEE.custom_form 1) (IEEE.series_feed [])
     = IEEE.raise (IEEE.ValueError NoCandles).
Proof.
  pose proof (IEEE_on_calculate_custom_atr_bypass (IEEE.custom_form 1) 1 eq_refl)
    as (_ & Hok & _ & Hempty & Hsame).
  pose proof (IEEE_on_calculate_custom_atr_bypass (IEEE.dex_form 1) 1 eq_refl)
    as (_ & Hdex & _).
  split; [|split; [|split]].
  - apply (Hok (IEEE.series_feed IEEE.short_series) 14%Z 100 100 5 5 45000
             eq_refl eq_refl eq_refl); try reflexivity.
    exists [], (IEEE.mkCandle 0 100 100 100 100). split; reflexivity.
  - apply (Hdex (IEEE.quote_feed 100) 14%Z 100 100 5 5 45000
             eq_refl eq_refl eq_refl); reflexivity.
  - apply (Hsame (IEEE.series_feed IEEE.short_series) (IEEE.series_feed IEEE.long_series)
             14%Z [] (IEEE.mkCandle 0 100 100 100 100)
             [IEEE.mkCandle 0 90 95 85 92; IEEE.mkCandle 1 92 99 91 97]
             (IEEE.mkCandle 2 97 103 96 100)
             eq_refl eq_refl eq_refl eq_refl eq_refl).
  - apply (Hempty (IEEE.series_feed []) 14%Z 100); reflexivity.
Defined.

(** ** The hitting time of a result *)

(** X14.  A successful result carries the bar length of the form, a
    number of seconds between a minute and a day, and shows as hours
    the hitting time in seconds over 3600.  When [atr <= 0] holds of
    the ATR used the hitting time is infinite, in seconds and in hours.
    When it does not, the square of [stop_abs / atr] was in range and
    the hitting time is the double [0.5 * (stop_abs / atr) ** 2 * dt]. *)
Theorem IEEE_on_calculate_hitting_time (self : IEEE.App) (feed : IEEE.Feed)
    (r : IEEE.Calc) :
  IEEE.on_calculate self feed = IEEE.Ok r ->
  IEEE.dt_seconds r = bar_to_seconds (IEEE.bar_var self)
  /\ (60 <= IEEE.dt_seconds r <= 86400)%Z
  /\ IEEE.median_hours r = IEEE.median_seconds r / 3600
  /\ ((IEEE.atr_value r <=? 0) = true ->
      IEEE.median_seconds r = infinity /\ IEEE.median_hours r = infinity)
  /\ ((IEEE.atr_value r <=? 0) = false ->
      IEEE.pow2_overflows (IEEE.stop_abs r / IEEE.atr_value r) = false
      /\ IEEE.median_seconds r
         = 0.5 * ((IEEE.stop_abs r / IEEE.atr_value r)
                  * (IEEE.stop_abs r / IEEE.atr_value r))
           * IEEE.int_to_float (IEEE.dt_seconds r)).
Proof.
  intros H. unfold IEEE.on_calculate in H. apply IEEE_on_calculate_with_ok in H.
  destruct H as (atr_n & notional & _ & _ & _ & _ & Hf).
  apply IEEE_finish_ok in Hf.
  destruct Hf as (_ & _ & _ & _ & _ & _ & _ & Hdt & Hm & Hh).
  pose proof (bar_to_seconds_bounds (IEEE.bar_var self)) as Hb. rewrite <- Hdt in Hb.
  split; [exact Hdt|]. split; [exact Hb|]. split; [exact Hh|]. split; intros E.
  - rewrite (IEEE_median_hitting_time_bm_le0 _ _ _ E) in Hm. injection Hm as Hm.
    rewrite Hh, <- Hm. split; reflexivity.
  - rewrite (IEEE_median_hitting_time_bm_not_le0 _ _ _ E) in Hm.
    destruct (IEEE.pow2_overflows _); [discriminate|].
    injection Hm as Hm. split; [reflexivity | now symmetry].
Qed.

Lemma IEEE_on_calculate_hitting_time_witness :
  (exists r, IEEE.on_calculate (IEEE.custom_form 0) (IEEE.series_feed IEEE.short_series)
             = IEEE.Ok r
             /\ IEEE.median_seconds r = infinity /\ IEEE.median_hours r = infinity)
  /\ (exists r, IEEE.on_calculate (IEEE.custom_form 1) (IEEE.series_feed IEEE.short_series)
                = IEEE.Ok r
                /\ IEEE.dt_seconds r = 3600%Z
                /\ IEEE.median_seconds r = 0.5 * ((5 / 1) * (5 / 1)) * 3600).
Proof.
  split.
  - eexists.
    destruct (IEEE_on_calculate_hitting_time (IEEE.custom_form 0)
                (IEEE.series_feed IEEE.short_series) _ eq_refl)
      as (_ & _ & _ & Hinf & _).
    split; [reflexivity|]. apply Hinf. reflexivity.
  - eexists.
    destruct (IEEE_on_calculate_hitting_time (IEEE.custom_form 1)
                (IEEE.series_feed IEEE.short_series) _ eq_refl)
      as (Hdt & _ & _ & _ & Hfin).
    split; [reflexivity|]. split; [exact Hdt|].
    apply (proj2 (Hfin eq_refl)).
Defined.

(** With a positive ATR the hitting time of a result can still be
    infinite, or zero. *)
Example IEEE_on_calculate_hitting_time_infinite :
  IEEE.on_calculate (IEEE.custom_form IEEE.f_1e_153) (IEEE.series_feed IEEE.short_series)
  = IEEE.Ok (IEEE.mkCalc 100 IEEE.f_1e_153 5 5 100 1 5 100 3600 infinity infinity).
Proof. reflexivity. Qed.

Example IEEE_on_calculate_hitting_time_zero :
  IEEE.on_calculate (IEEE.custom_form IEEE.f_1e200) (IEEE.series_feed IEEE.short_series)
  = IEEE.Ok (IEEE.mkCalc 100 IEEE.f_1e200 5 5 100 1 5 100 3600 0 0).
Proof. reflexivity. Qed.
